(** * popen2: the subprocess I/O bridge of src/common.h

    A shallow embedding of [popen2] (src/common.h, lines 54-210) and the
    properties its specification states about it.

    [popen2] only talks to the outside world through system calls
    (pipe, fork, close, dup2, exec, poll, write, read, waitpid).  The
    embedding is written against an interface [Kernel] that gives these
    calls as functions on an abstract world; the C code becomes a program
    in a small monad that threads the world, may block for ever, and
    records every system call (and every [error]/[syserror] message) in
    a log.  Two kernels are given further down: a scripted one, which
    replays canned answers, and a reference model of two pipes and a
    child process that forwards its standard input to its standard
    output. *)

From Stdlib Require Import String ZArith List Bool Lia.
From Stdlib Require Import Init.Byte.
Import ListNotations.
Open Scope Z_scope.

(** ** C integers *)

Module CInt.

Definition INT_MAX : Z := 2 ^ 31 - 1.
Definition INT_MIN : Z := - 2 ^ 31.

(** Reduction of a mathematical integer to a 32-bit [int]. *)
Definition wrap (z : Z) : Z := (z + 2 ^ 31) mod 2 ^ 32 - 2 ^ 31.

Definition add (a b : Z) : Z := wrap (a + b).
Definition sub (a b : Z) : Z := wrap (a - b).
Definition neg (a : Z) : Z := wrap (- a).

(** [int] passed where a [size_t] is expected (64 bits). *)
Definition to_size_t (z : Z) : Z := z mod 2 ^ 64.

(** [ssize_t] stored into an [int] variable. *)
Definition of_ssize_t (z : Z) : Z := wrap z.

End CInt.

(** ** Constants and macros of the C library (Linux, glibc)

    <poll.h> and <sys/wait.h> are not part of the repository; the values
    are those of Linux. *)

Definition POLLIN : Z := 1.
Definition POLLOUT : Z := 4.
Definition POLLERR : Z := 8.
Definition POLLHUP : Z := 16.

Definition STDIN_FILENO : Z := 0.
Definition STDOUT_FILENO : Z := 1.

(** [x & flag] used as a condition. *)
Definition has_flag (x flag : Z) : bool := negb (Z.land x flag =? 0).

(** [x & ~flag]. *)
Definition clear_flag (x flag : Z) : Z := Z.land x (Z.lnot flag).

Definition WTERMSIG (status : Z) : Z := Z.land status 127.
Definition WIFEXITED (status : Z) : bool := WTERMSIG status =? 0.
Definition WEXITSTATUS (status : Z) : Z := Z.shiftr (Z.land status 65280) 8.

(** ** Buffers

    A [char*] argument is the memory it points to, indexed by the offset
    from the pointer; a store outside the caller's buffer is therefore
    representable. *)

Definition mem : Type := Z -> byte.

Definition load (m : mem) (off count : Z) : list byte :=
  map (fun k => m (off + Z.of_nat k)) (seq 0 (Z.to_nat count)).

Definition store (m : mem) (off : Z) (data : list byte) : mem :=
  fun i =>
    if (off <=? i) && (i <? off + Z.of_nat (length data))
    then nth (Z.to_nat (i - off)) data x00
    else m i.

Definition mem_of_list (l : list byte) : mem :=
  fun i => if i <? 0 then x00 else nth (Z.to_nat i) l x00.

(** ** The system-call interface *)

Record pollret : Type := PollRet {
  polln : Z;      (* return value of poll *)
  revents0 : Z;   (* fds[0].revents *)
  revents1 : Z    (* fds[1].revents *)
}.

(** A call that may block for ever answers [None]. *)
Class Kernel (W : Type) : Type := {
  (* pipe(fd): [None] is -1, [Some (r, w)] stores fd[0] = r, fd[1] = w *)
  k_pipe : W -> option (Z * Z) * W;
  (* fork(): the pid returned in the process that is followed *)
  k_fork : W -> Z * W;
  k_close : Z -> W -> W;
  k_dup2 : Z -> Z -> W -> W;
  (* execvp/execlp: [true] when the image was replaced *)
  k_exec : string -> option (list string) -> W -> bool * W;
  (* poll(fds, 2, -1) with fds[0] = {fd0, POLLIN}, fds[1] = {fd1, POLLOUT} *)
  k_poll : Z -> Z -> W -> option (pollret * W);
  (* write(fd, buf, count) given the count bytes at buf: the ssize_t *)
  k_write : Z -> list byte -> W -> option (Z * W);
  (* read(fd, buf, count): [None] is -1, [Some data] returns the length
     of data after storing data at buf *)
  k_read : Z -> Z -> W -> option (option (list byte) * W);
  (* waitpid(pid, &status, 0): the pid returned, and status *)
  k_waitpid : Z -> W -> option (Z * Z * W)
}.

(** What POSIX promises about these calls, as far as [popen2] relies on
    it. *)
Record KernelOK {W : Type} (K : Kernel W) : Prop := {
  read_le : forall fd count w data w',
      k_read fd count w = Some (Some data, w') ->
      Z.of_nat (length data) <= count;
  write_le : forall fd data w n w',
      k_write fd data w = Some (n, w') ->
      -1 <= n <= Z.of_nat (length data);
  poll_ignores_negative : forall fd0 fd1 w r w',
      k_poll fd0 fd1 w = Some (r, w') ->
      fd1 < 0 -> revents1 r = 0
}.

(** ** The log of a run *)

Inductive event : Type :=
| EvPipe (res : option (Z * Z))
| EvFork (pid : Z)
| EvClose (fd : Z)
| EvDup2 (oldfd newfd : Z)
| EvExec (cmd : string) (argv : option (list string))
| EvExit (status : Z)
| EvPoll (fd0 fd1 : Z) (r : pollret)
| EvWrite (fd off count ret : Z)
| EvRead (fd off count : Z) (ret : option (list byte))
| EvWaitpid (pid ret status : Z)
| EvMsg (msg : string).

(** How a process that entered [popen2] leaves it. *)
Inductive outcome : Type :=
| Returned (r : Z) (out : mem)   (* popen2 returns r; the output buffer *)
| ChildExec                      (* the child's image was replaced *)
| ChildExit (status : Z).        (* the child called exit(status) *)

(** Control after one pass of the [while (1)] loop. *)
Inductive ctl : Type := Continue | Break.

(** The parent's local variables during and after the loop. *)
Record pstate : Type := PState {
  readlen : Z;
  writelen : Z;
  stdin_fd1 : Z;    (* stdin_fd[1] *)
  fds1_fd : Z;      (* fds[1].fd *)
  output : mem
}.

Definition set_readlen (v : Z) (st : pstate) : pstate :=
  PState v (writelen st) (stdin_fd1 st) (fds1_fd st) (output st).

Definition set_writelen (v : Z) (st : pstate) : pstate :=
  PState (readlen st) v (stdin_fd1 st) (fds1_fd st) (output st).

Definition set_output (m : mem) (st : pstate) : pstate :=
  PState (readlen st) (writelen st) (stdin_fd1 st) (fds1_fd st) m.

(** [stdin_fd[1] = -1; fds[1].fd = -1;] *)
Definition forget_stdin (st : pstate) : pstate :=
  PState (readlen st) (writelen st) (-1) (-1) (output st).

Section Bridge.

Context {W : Type} {K : Kernel W}.

(** *** The monad: world passing, blocking, logging *)

Definition M (A : Type) : Type := W -> option (A * list event * W).

Definition ret {A} (a : A) : M A := fun w => Some (a, [], w).

Definition bind {A B} (m : M A) (f : A -> M B) : M B :=
  fun w =>
    match m w with
    | None => None
    | Some (a, e1, w1) =>
        match f a w1 with
        | None => None
        | Some (b, e2, w2) => Some (b, e1 ++ e2, w2)
        end
    end.

Definition emit (e : event) : M unit := fun w => Some (tt, [e], w).

Notation "x <- m ;; k" := (bind m (fun x => k))
  (at level 61, m at next level, right associativity).
Notation "m ;;; k" := (bind m (fun _ => k))
  (at level 61, right associativity).

(** *** System calls and messages as monadic actions *)

Definition pipe : M (option (Z * Z)) :=
  fun w => let (r, w') := k_pipe w in Some (r, [EvPipe r], w').

Definition fork : M Z :=
  fun w => let (pid, w') := k_fork w in Some (pid, [EvFork pid], w').

Definition close (fd : Z) : M unit :=
  fun w => Some (tt, [EvClose fd], k_close fd w).

Definition dup2 (oldfd newfd : Z) : M unit :=
  fun w => Some (tt, [EvDup2 oldfd newfd], k_dup2 oldfd newfd w).

Definition exec (cmd : string) (argv : option (list string)) : M bool :=
  fun w => let (b, w') := k_exec cmd argv w in
           Some (b, [EvExec cmd argv], w').

Definition poll (fd0 fd1 : Z) : M pollret :=
  fun w =>
    match k_poll fd0 fd1 w with
    | None => None
    | Some (r, w') => Some (r, [EvPoll fd0 fd1 r], w')
    end.

Definition write (fd : Z) (buf : mem) (off count : Z) : M Z :=
  fun w =>
    match k_write fd (load buf off count) w with
    | None => None
    | Some (n, w') => Some (n, [EvWrite fd off count n], w')
    end.

Definition read (fd off count : Z) : M (option (list byte)) :=
  fun w =>
    match k_read fd count w with
    | None => None
    | Some (r, w') => Some (r, [EvRead fd off count r], w')
    end.

Definition waitpid (pid : Z) : M (Z * Z) :=
  fun w =>
    match k_waitpid pid w with
    | None => None
    | Some (p, status, w') => Some ((p, status), [EvWaitpid pid p status], w')
    end.

(** [error] and [syserror] print a message; [log] prints nothing at the
    verbosity the file sets ([verbose = 0]) and is left out. *)
Definition error (msg : string) : M unit := emit (EvMsg msg).
Definition syserror (msg : string) : M unit := emit (EvMsg msg).

(** The value of [n] after [int n = read(...)] / [write(...)]. *)
Definition read_result (r : option (list byte)) : Z :=
  match r with
  | None => CInt.of_ssize_t (-1)
  | Some data => CInt.of_ssize_t (Z.of_nat (length data))
  end.

Section Call.

Variables (cmd : string) (argv : option (list string)).
Variables (input : mem) (inlen : Z) (outlen : Z).

(** *** Lines 74-87: the child *)
Definition child (stdin_r stdin_w stdout_r stdout_w : Z) : M outcome :=
  close stdin_w ;;;
  dup2 stdin_r STDIN_FILENO ;;;
  close stdout_r ;;;
  dup2 stdout_w STDOUT_FILENO ;;;
  replaced <- exec cmd argv ;;
  if replaced then ret ChildExec
  else
    syserror "Error running." ;;;
    emit (EvExit 127) ;;;
    ret (ChildExit 127).

(** *** Lines 119-138: the write leg of one pass.
    Yields the control, the state and fds[1].revents. *)
Definition write_leg (st : pstate) (rev1 : Z) : M (ctl * pstate * Z) :=
  if has_flag rev1 POLLOUT then
    r <- (if writelen st <? inlen then
            n0 <- write (stdin_fd1 st) input (writelen st)
                    (CInt.to_size_t (CInt.sub inlen (writelen st))) ;;
            let n := CInt.of_ssize_t n0 in
            if n <? 0 then
              error "write error." ;;;
              ret (Break, set_readlen (-1) st)
            else
              ret (Continue, set_writelen (CInt.add (writelen st) n) st)
          else ret (Continue, st)) ;;
    match r with
    | (Break, st1) => ret (Break, st1, rev1)
    | (Continue, st1) =>
        st2 <- (if writelen st1 =? inlen then
                  close (stdin_fd1 st1) ;;;
                  ret (forget_stdin st1)
                else ret st1) ;;
        ret (Continue, st2, clear_flag rev1 POLLOUT)
    end
  else ret (Continue, st, rev1).

(** *** Lines 147-166: the read leg of one pass.
    Yields the control, the state and fds[0].revents. *)
Definition read_leg (stdout_r : Z) (st : pstate) (rev0 : Z)
  : M (ctl * pstate * Z) :=
  if has_flag rev0 POLLIN then
    r <- read stdout_r (readlen st)
           (CInt.to_size_t (CInt.sub outlen (readlen st))) ;;
    let st1 :=
      match r with
      | Some data => set_output (store (output st) (readlen st) data) st
      | None => st
      end in
    let n := read_result r in
    if n <? 0 then
      error "read error." ;;;
      ret (Break, set_readlen (-1) st1, rev0)
    else
      let st2 := set_readlen (CInt.add (readlen st1) n) st1 in
      if outlen <=? readlen st2 then
        error "Output too long." ;;;
        ret (Break, st2, rev0)
      else ret (Continue, st2, clear_flag rev0 POLLIN)
  else ret (Continue, st, rev0).

(** *** Lines 108-176: one pass of the loop *)
Definition pump_pass (stdout_r : Z) (st : pstate) : M (ctl * pstate) :=
  r <- poll stdout_r (fds1_fd st) ;;
  if polln r <? 0 then
    syserror "poll error." ;;;
    ret (Break, set_readlen (-1) st)
  else
    wl <- write_leg st (revents1 r) ;;
    match wl with
    | (Break, st1, _) => ret (Break, st1)
    | (Continue, st1, rev1) =>
        if negb (rev1 =? 0) then
          error "Unknown poll event on stdout." ;;;
          ret (Break, set_readlen (-1) st1)
        else
          rl <- read_leg stdout_r st1 (revents0 r) ;;
          match rl with
          | (Break, st2, _) => ret (Break, st2)
          | (Continue, st2, rev0) =>
              if rev0 =? POLLHUP then ret (Break, st2)
              else if negb (rev0 =? 0) then
                error "Unknown poll event on stdin." ;;;
                ret (Break, set_readlen (-1) st2)
              else ret (Continue, st2)
          end
    end.

(** *** Lines 107-177: [while (1)]; a pass per unit of fuel *)
Fixpoint pump (fuel : nat) (stdout_r : Z) (st : pstate) : M pstate :=
  match fuel with
  | O => fun _ => None
  | S fuel' =>
      r <- pump_pass stdout_r st ;;
      match r with
      | (Break, st') => ret st'
      | (Continue, st') => pump fuel' stdout_r st'
      end
  end.

(** *** Lines 179-209: closing what is left, reaping, the result *)
Definition reap (pid stdout_r : Z) (st : pstate) : M outcome :=
  (if 0 <=? stdin_fd1 st then close (stdin_fd1 st) else ret tt) ;;;
  close stdout_r ;;;
  ws <- waitpid pid ;;
  let (wait_pid, status) := ws in
  if negb (wait_pid =? pid) then
    syserror "waitpid error." ;;;
    ret (Returned (-1) (output st))
  else if WIFEXITED status then
    if negb (WEXITSTATUS status =? 0) then
      error "child exited with status" ;;;
      ret (Returned (CInt.neg (WEXITSTATUS status)) (output st))
    else if negb (writelen st =? inlen) then
      error "Incomplete write." ;;;
      ret (Returned (-1) (output st))
    else ret (Returned (readlen st) (output st))
  else
    error "child process did not exit" ;;;
    ret (Returned (-1) (output st)).

(** The locals at line 105-106. *)
Definition pump_init (stdin_w : Z) (out : mem) : pstate :=
  PState 0 0 stdin_w stdin_w out.

(** *** Lines 90-209: the parent *)
Definition parent (fuel : nat) (pid stdin_r stdin_w stdout_r stdout_w : Z)
           (out : mem) : M outcome :=
  close stdin_r ;;;
  close stdout_w ;;;
  st <- pump fuel stdout_r (pump_init stdin_w out) ;;
  reap pid stdout_r st.

(** *** Lines 54-210 *)
Definition popen2 (fuel : nat) (out : mem) : M outcome :=
  p1 <- pipe ;;
  match p1 with
  | None =>
      syserror "Failed to create pipe." ;;;
      ret (Returned (-1) out)
  | Some (stdin_r, stdin_w) =>
      p2 <- pipe ;;
      match p2 with
      | None =>
          syserror "Failed to create pipe." ;;;
          ret (Returned (-1) out)
      | Some (stdout_r, stdout_w) =>
          pid <- fork ;;
          if pid <? 0 then
            syserror "Fork error." ;;;
            ret (Returned (-1) out)
          else if pid =? 0 then
            child stdin_r stdin_w stdout_r stdout_w
          else
            parent fuel pid stdin_r stdin_w stdout_r stdout_w out
      end
  end.

End Call.

End Bridge.

Arguments M W : clear implicits.

(** ** A scripted kernel

    The world is a list of canned answers per system call; every call
    takes the next one.  The answers are cut down to what the call may
    return: [read] never hands out more than it was asked for, [write]
    answers -1 or a count no larger than what it was given, [poll]
    reports nothing on a negative descriptor.  A poll or waitpid with no answer left blocks. *)

Module Script.

Record world : Type := World {
  pipes : list (option (Z * Z));
  fork_ret : Z;
  exec_ok : bool;
  polls : list pollret;
  writes : list Z;
  reads : list (option (list byte));
  wait : option (Z * Z)
}.

Definition s_pipe (w : world) : option (Z * Z) * world :=
  match pipes w with
  | [] => (None, w)
  | p :: ps =>
      (p, World ps (fork_ret w) (exec_ok w) (polls w) (writes w) (reads w)
                (wait w))
  end.

Definition mask (fd rev : Z) : Z := if fd <? 0 then 0 else rev.

Definition s_poll (fd0 fd1 : Z) (w : world) : option (pollret * world) :=
  match polls w with
  | [] => None
  | r :: rs =>
      Some (PollRet (polln r) (mask fd0 (revents0 r)) (mask fd1 (revents1 r)),
            World (pipes w) (fork_ret w) (exec_ok w) rs (writes w) (reads w)
                  (wait w))
  end.

Definition s_write (fd : Z) (data : list byte) (w : world)
  : option (Z * world) :=
  match writes w with
  | [] => Some (-1, w)
  | n :: ns =>
      Some (Z.max (-1) (Z.min n (Z.of_nat (length data))),
            World (pipes w) (fork_ret w) (exec_ok w) (polls w) ns (reads w)
                  (wait w))
  end.

Definition s_read (fd count : Z) (w : world)
  : option (option (list byte) * world) :=
  match reads w with
  | [] => Some (None, w)
  | r :: rs =>
      Some (match r with
            | Some data =>
                if count <? 0 then None
                else Some (firstn (Z.to_nat count) data)
            | None => None
            end,
            World (pipes w) (fork_ret w) (exec_ok w) (polls w) (writes w) rs
                  (wait w))
  end.

Definition s_waitpid (pid : Z) (w : world) : option (Z * Z * world) :=
  match wait w with
  | None => None
  | Some (p, status) => Some (p, status, w)
  end.

#[global] Instance kernel : Kernel world := {|
  k_pipe := s_pipe;
  k_fork := fun w => (fork_ret w, w);
  k_close := fun _ w => w;
  k_dup2 := fun _ _ w => w;
  k_exec := fun _ _ w => (exec_ok w, w);
  k_poll := s_poll;
  k_write := s_write;
  k_read := s_read;
  k_waitpid := s_waitpid
|}.

(** The usual descriptors and pid of a run that reaches the parent. *)
Definition parent_world (ps : list pollret) (ws : list Z)
           (rs : list (option (list byte))) (wt : option (Z * Z)) : world :=
  World [Some (3, 4); Some (5, 6)] 100 true ps ws rs wt.

End Script.

(** ** A reference model of the pipes and of a forwarding child

    Two pipes of bounded capacity and one child process.  The child
    holds a queue [pending] of bytes it still has to write; it starts
    with a preamble in it, reads its standard input in chunks, appends
    what it read to the queue, writes the queue to its standard output
    in chunks, and after end-of-file on its input and the last byte
    written it exits with status 0.  With an empty preamble it is an
    identity transform ([cat]); with an empty input it is a command that
    prints the preamble.  Which of reading and writing it attempts next
    and in what chunk sizes, and when it runs relative to the parent, is
    decided by the schedule, a list of the child's steps ([Some]) and of
    switches to the parent ([None]).

    A write to a pipe transfers the bytes there is room for and returns
    their number (the partial write that the loop of [popen2] is written
    for); a read takes the bytes that are there, up to the count.  The
    parent's blocking calls let the child run until they can return.
    Neither the kernel nor the child is part of the repository: the
    model states what is assumed of them. *)

Module Sim.

Inductive tok : Type :=
| TRead (k : nat)    (* attempt to read up to k+1 bytes *)
| TWrite (k : nat).  (* attempt to write up to k+1 pending bytes *)

Definition schedule : Type := list (option tok).

Record sys : Type := Sys {
  cap : nat;               (* capacity of each pipe, in bytes *)
  in_q : list byte;        (* the stdin pipe: written, not yet read *)
  out_q : list byte;       (* the stdout pipe *)
  in_w_open : bool;        (* the parent holds the stdin write end *)
  out_r_open : bool;       (* the parent holds the stdout read end *)
  pending : list byte;     (* child: bytes still to be written *)
  eof : bool;              (* child: has seen end-of-file on stdin *)
  status : option Z;       (* child: wait status once terminated *)
  npipes : nat;            (* pipes created so far *)
  forked : bool
}.

Record world : Type := World { state : sys; sched : schedule }.

Definition stdin_r : Z := 3.
Definition stdin_w : Z := 4.
Definition stdout_r : Z := 5.
Definition stdout_w : Z := 6.
Definition child_pid : Z := 100.
Definition SIGPIPE : Z := 13.
Definition POLLNVAL : Z := 32.

Definition upd_in_q q y :=
  Sys (cap y) q (out_q y) (in_w_open y) (out_r_open y) (pending y) (eof y)
      (status y) (npipes y) (forked y).
Definition upd_out_q q y :=
  Sys (cap y) (in_q y) q (in_w_open y) (out_r_open y) (pending y) (eof y)
      (status y) (npipes y) (forked y).
Definition upd_in_w b y :=
  Sys (cap y) (in_q y) (out_q y) b (out_r_open y) (pending y) (eof y)
      (status y) (npipes y) (forked y).
Definition upd_out_r b y :=
  Sys (cap y) (in_q y) (out_q y) (in_w_open y) b (pending y) (eof y)
      (status y) (npipes y) (forked y).
Definition upd_pending p y :=
  Sys (cap y) (in_q y) (out_q y) (in_w_open y) (out_r_open y) p (eof y)
      (status y) (npipes y) (forked y).
Definition upd_eof b y :=
  Sys (cap y) (in_q y) (out_q y) (in_w_open y) (out_r_open y) (pending y) b
      (status y) (npipes y) (forked y).
Definition upd_status s y :=
  Sys (cap y) (in_q y) (out_q y) (in_w_open y) (out_r_open y) (pending y)
      (eof y) s (npipes y) (forked y).
Definition upd_npipes n y :=
  Sys (cap y) (in_q y) (out_q y) (in_w_open y) (out_r_open y) (pending y)
      (eof y) (status y) n (forked y).
Definition upd_forked b y :=
  Sys (cap y) (in_q y) (out_q y) (in_w_open y) (out_r_open y) (pending y)
      (eof y) (status y) (npipes y) b.

(** *** The child *)

(** read(0, buf, k+1): blocks on an empty pipe that still has a
    writer (the step does nothing), sees end-of-file on an empty pipe
    without one. *)
Definition child_read (k : nat) (y : sys) : sys :=
  match in_q y with
  | [] => if in_w_open y then y else upd_eof true y
  | _ :: _ =>
      upd_pending (pending y ++ firstn (S k) (in_q y))
                  (upd_in_q (skipn (S k) (in_q y)) y)
  end.

(** write(1, pending, k+1): killed by SIGPIPE when the parent closed
    the read end, else transfers what there is room for. *)
Definition child_write (k : nat) (y : sys) : sys :=
  if out_r_open y then
    let n := Nat.min (S k) (cap y - length (out_q y)) in
    upd_pending (skipn n (pending y))
                (upd_out_q (out_q y ++ firstn n (pending y)) y)
  else upd_status (Some SIGPIPE) y.

Definition child_step (t : tok) (y : sys) : sys :=
  if negb (forked y) then y else
  match status y with
  | Some _ => y
  | None =>
      match pending y with
      | [] =>
          if eof y then upd_status (Some 0) y   (* exit(0) *)
          else child_read (match t with TRead k | TWrite k => k end) y
      | _ :: _ =>
          if eof y then
            child_write (match t with TRead k | TWrite k => k end) y
          else
            match t with
            | TRead k => child_read k y
            | TWrite k => child_write k y
            end
      end
  end.

(** *** Scheduling *)

(** The child's steps up to the next switch to the parent. *)
Fixpoint run_burst (s : schedule) (y : sys) : schedule * sys :=
  match s with
  | [] => ([], y)
  | None :: s' => (s', y)
  | Some t :: s' => run_burst s' (child_step t y)
  end.

(** The child's next step; once the schedule is used up it reads. *)
Fixpoint next_tok (s : schedule) : tok * schedule :=
  match s with
  | [] => (TRead 0, [])
  | None :: s' => next_tok s'
  | Some t :: s' => (t, s')
  end.

(** A blocked parent: the child runs until [ready]; [None] when that
    takes more than [fuel] steps. *)
Fixpoint await (ready : sys -> bool) (fuel : nat) (s : schedule) (y : sys)
  : option (schedule * sys) :=
  if ready y then Some (s, y)
  else match fuel with
       | O => None
       | S fuel' =>
           let (t, s') := next_tok s in
           await ready fuel' s' (child_step t y)
       end.

(** How long a blocked call waits: the child needs at most this many
    steps to take what is left in the stdin pipe, see end-of-file and
    write or exit. *)
Definition patience (y : sys) : nat := length (in_q y) + 3.

(** *** The system calls seen by the parent *)

Definition exited (y : sys) : bool :=
  match status y with Some _ => true | None => false end.

Definition rev_stdout (fd : Z) (y : sys) : Z :=
  if fd <? 0 then 0
  else if (fd =? stdout_r) && out_r_open y then
    Z.lor (match out_q y with [] => 0 | _ :: _ => POLLIN end)
          (if exited y then POLLHUP else 0)
  else POLLNVAL.

Definition rev_stdin (fd : Z) (y : sys) : Z :=
  if fd <? 0 then 0
  else if (fd =? stdin_w) && in_w_open y then
    Z.lor (if (length (in_q y) <? cap y)%nat then POLLOUT else 0)
          (if exited y then POLLERR else 0)
  else POLLNVAL.

Definition count_ready (a b : Z) : Z :=
  (if a =? 0 then 0 else 1) + (if b =? 0 then 0 else 1).

Definition poll_ready (fd0 fd1 : Z) (y : sys) : bool :=
  negb ((rev_stdout fd0 y =? 0) && (rev_stdin fd1 y =? 0)).

Definition m_poll (fd0 fd1 : Z) (w : world) : option (pollret * world) :=
  let (s1, y1) := run_burst (sched w) (state w) in
  match await (poll_ready fd0 fd1) (patience y1) s1 y1 with
  | None => None
  | Some (s2, y2) =>
      let r0 := rev_stdout fd0 y2 in
      let r1 := rev_stdin fd1 y2 in
      Some (PollRet (count_ready r0 r1) r0 r1, World y2 s2)
  end.

Definition has_room (y : sys) : bool :=
  (length (in_q y) <? cap y)%nat || exited y.

Definition m_write (fd : Z) (data : list byte) (w : world)
  : option (Z * world) :=
  let (s1, y1) := run_burst (sched w) (state w) in
  if (fd =? stdin_w) && in_w_open y1 then
    match await has_room (patience y1) s1 y1 with
    | None => None
    | Some (s2, y2) =>
        if exited y2 then Some (-1, World y2 s2)   (* EPIPE *)
        else
          let n := Nat.min (length data) (cap y2 - length (in_q y2)) in
          Some (Z.of_nat n,
                World (upd_in_q (in_q y2 ++ firstn n data) y2) s2)
    end
  else Some (-1, World y1 s1).                      (* EBADF *)

Definition has_data (y : sys) : bool :=
  match out_q y with [] => exited y | _ :: _ => true end.

Definition m_read (fd count : Z) (w : world)
  : option (option (list byte) * world) :=
  let (s1, y1) := run_burst (sched w) (state w) in
  if (fd =? stdout_r) && out_r_open y1 && (0 <=? count) then
    match await has_data (patience y1) s1 y1 with
    | None => None
    | Some (s2, y2) =>
        let n := Z.to_nat count in
        Some (Some (firstn n (out_q y2)),
              World (upd_out_q (skipn n (out_q y2)) y2) s2)
    end
  else Some (None, World y1 s1).

Definition m_close (fd : Z) (w : world) : world :=
  let (s1, y1) := run_burst (sched w) (state w) in
  World (if fd =? stdin_w then upd_in_w false y1
         else if fd =? stdout_r then upd_out_r false y1
         else y1) s1.

Definition m_waitpid (pid : Z) (w : world) : option (Z * Z * world) :=
  let (s1, y1) := run_burst (sched w) (state w) in
  if (pid =? child_pid) && forked y1 then
    match await exited (patience y1) s1 y1 with
    | None => None
    | Some (s2, y2) =>
        Some (child_pid, match status y2 with Some v => v | None => 0 end,
              World y2 s2)
    end
  else Some (-1, 0, World y1 s1).                   (* ECHILD *)

Definition m_pipe (w : world) : option (Z * Z) * world :=
  let y := state w in
  match npipes y with
  | O => (Some (stdin_r, stdin_w), World (upd_npipes 1 y) (sched w))
  | S O => (Some (stdout_r, stdout_w), World (upd_npipes 2 y) (sched w))
  | _ => (None, w)
  end.

Definition m_fork (w : world) : Z * world :=
  (child_pid, World (upd_forked true (state w)) (sched w)).

#[global] Instance kernel : Kernel world := {|
  k_pipe := m_pipe;
  k_fork := m_fork;
  k_close := m_close;
  k_dup2 := fun _ _ w => w;
  k_exec := fun _ _ w => (true, w);
  k_poll := m_poll;
  k_write := m_write;
  k_read := m_read;
  k_waitpid := m_waitpid
|}.

(** The world at the call: no pipe yet, the child still to be forked
    with [pre] as its preamble. *)
Definition init (capacity : nat) (pre : list byte) (s : schedule) : world :=
  World (Sys capacity [] [] true true pre false None 0 false) s.

End Sim.

(** ** Reading a log *)

Definition is_close (fd : Z) (e : event) : bool :=
  match e with EvClose fd' => fd' =? fd | _ => false end.

Definition is_read (e : event) : bool :=
  match e with EvRead _ _ _ _ => true | _ => false end.


Definition count (p : event -> bool) (evs : list event) : nat :=
  length (filter p evs).


Definition is_msg (e : event) : bool :=
  match e with EvMsg _ => true | _ => false end.

(** What the loop may log. *)
Definition pump_event (e : event) : Prop :=
  match e with
  | EvPoll _ _ _ | EvWrite _ _ _ _ | EvRead _ _ _ _ | EvMsg _ | EvClose _ => True
  | _ => False
  end.

(** What is logged between the entry and the loop when the parent is
    reached. *)
Definition spawn_log (pid stdin_r stdin_w stdout_r stdout_w : Z) : list event :=
  [EvPipe (Some (stdin_r, stdin_w)); EvPipe (Some (stdout_r, stdout_w));
   EvFork pid; EvClose stdin_r; EvClose stdout_w].

(** What [reap] logs before it calls waitpid. *)
Definition cleanup_log (stdout_r : Z) (st : pstate) : list event :=
  (if 0 <=? stdin_fd1 st then [EvClose (stdin_fd1 st)] else [])
    ++ [EvClose stdout_r].

Section Runs.

Context {W : Type} {K : Kernel W}.
Variables (input : mem) (inlen outlen : Z).

(** The loop heads that can be reached from a given one. *)
Inductive pump_reach (stdout_r : Z) (st0 : pstate) (w0 : W)
  : pstate -> W -> Prop :=
| reach_first : pump_reach stdout_r st0 w0 st0 w0
| reach_next : forall st w evs st' w',
    pump_reach stdout_r st0 w0 st w ->
    pump_pass input inlen outlen stdout_r st w = Some (Continue, st', evs, w') ->
    pump_reach stdout_r st0 w0 st' w'.

(** The world in which [reap] calls waitpid. *)
Definition world_at_wait (stdout_r : Z) (st : pstate) (w : W) : W :=
  k_close stdout_r
    (if 0 <=? stdin_fd1 st then k_close (stdin_fd1 st) w else w).

(** The call forks a child [pid], and in the parent the loop ends after
    at most [fuel] passes with the locals [st], in world [w']. *)
Definition leaves_loop (fuel : nat) (out : mem) (w : W)
           (pid stdin_r stdin_w stdout_r stdout_w : Z)
           (st : pstate) (evs : list event) (w' : W) : Prop :=
  exists w1 w2 w3,
    k_pipe w = (Some (stdin_r, stdin_w), w1) /\
    k_pipe w1 = (Some (stdout_r, stdout_w), w2) /\
    k_fork w2 = (pid, w3) /\
    0 < pid /\
    pump input inlen outlen fuel stdout_r (pump_init stdin_w out)
         (k_close stdout_w (k_close stdin_r w3)) = Some (st, evs, w').

End Runs.

(** ** The forwarding child: what holds between two system calls *)







Section Forwarding.

Variables (input : mem) (inlen : Z) (pre : list byte).




End Forwarding.



(** ** Reading the data and the descriptors off a log *)

Definition is_write (e : event) : bool :=
  match e with EvWrite _ _ _ _ => true | _ => false end.

(** The bytes the reads of a log returned, in the order of the reads. *)
Fixpoint received (evs : list event) : list byte :=
  match evs with
  | [] => []
  | EvRead _ _ _ (Some data) :: rest => data ++ received rest
  | _ :: rest => received rest
  end.


(** The messages of [popen2] other than "Output too long.", and that
    one. *)
Definition is_error_msg (e : event) : bool :=
  match e with
  | EvMsg m => negb (String.eqb m "Output too long.")
  | _ => false
  end.

Definition is_overflow_msg (e : event) : bool :=
  match e with
  | EvMsg m => String.eqb m "Output too long."
  | _ => false
  end.

(** Follows the descriptors through the log of the loop.  [fd1] is the
    descriptor of the stdin pipe that is watched: every poll watches
    [stdout_r] and [fd1]; a write or a close goes to [fd1], which is
    then not negative; after the close -1 is watched; every read is
    from [stdout_r].  The descriptor watched at the end, or [None] when
    an event does not follow this. *)
Fixpoint watch (stdout_r fd1 : Z) (evs : list event) : option Z :=
  match evs with
  | [] => Some fd1
  | EvPoll a b _ :: rest =>
      if (a =? stdout_r) && (b =? fd1) then watch stdout_r fd1 rest else None
  | EvWrite fd _ _ _ :: rest =>
      if (fd =? fd1) && (0 <=? fd1) then watch stdout_r fd1 rest else None
  | EvClose fd :: rest =>
      if (fd =? fd1) && (0 <=? fd1) then watch stdout_r (-1) rest else None
  | EvRead fd _ _ _ :: rest =>
      if fd =? stdout_r then watch stdout_r fd1 rest else None
  | _ :: rest => watch stdout_r fd1 rest
  end.

(** What only the child logs. *)
Definition is_child_event (e : event) : bool :=
  match e with
  | EvDup2 _ _ | EvExec _ _ | EvExit _ => true
  | _ => false
  end.



(** * Properties *)

(** ** Integers and flags *)

Lemma wrap_small (z : Z) :
  CInt.INT_MIN <= z <= CInt.INT_MAX -> CInt.wrap z = z.
Proof.
  unfold CInt.wrap, CInt.INT_MIN, CInt.INT_MAX; intros H.
  rewrite Z.mod_small; lia.
Qed.

Lemma to_size_t_small (z : Z) : 0 <= z <= CInt.INT_MAX -> CInt.to_size_t z = z.
Proof.
  unfold CInt.to_size_t, CInt.INT_MAX; intros H.
  apply Z.mod_small; lia.
Qed.

Lemma WEXITSTATUS_exit (s : Z) :
  0 <= s <= 255 -> WIFEXITED (s * 256) = true /\ WEXITSTATUS (s * 256) = s.
Proof.
  intros H.
  assert (E : forall k, 0 <= k <= 255 ->
                        WIFEXITED (k * 256) = true /\ WEXITSTATUS (k * 256) = k).
  { intros k Hk.
    assert (Hn : exists n, k = Z.of_nat n /\ (n <= 255)%nat).
    { exists (Z.to_nat k); lia. }
    destruct Hn as (n & -> & Hn).
    do 256 (destruct n as [|n]; [vm_compute; auto|]). lia. }
  auto.
Qed.

(** ** The monad *)

Section Monad.

Context {W : Type} {K : Kernel W}.

Lemma bind_inv {A B} (m : M W A) (f : A -> M W B) w b evs w' :
  bind m f w = Some (b, evs, w') ->
  exists a e1 w1 e2,
    m w = Some (a, e1, w1) /\ f a w1 = Some (b, e2, w') /\ evs = e1 ++ e2.
Proof.
  unfold bind; intros H.
  destruct (m w) as [[[a e1] w1]|]; [|discriminate].
  destruct (f a w1) as [[[b' e2] w2]|] eqn:E; [|discriminate].
  inversion H; subst. exists a, e1, w1, e2; auto.
Qed.

End Monad.

(** Takes a run of monadic code in a hypothesis apart, branch by branch. *)
Ltac open_run H :=
  cbv beta delta [bind ret emit error syserror pipe fork close dup2 exec
                  poll write read waitpid] in H;
  repeat match type of H with
    | context [match ?x with _ => _ end] =>
        match x with
        | context [match _ with _ => _ end] => fail 1
        | _ => destruct x eqn:?
        end
    end;
  try discriminate H;
  try (injection H as <- <- <-).

(** ** Buffers *)

Lemma store_outside (m : mem) (off : Z) (data : list byte) (i : Z) :
  i < off \/ off + Z.of_nat (length data) <= i -> store m off data i = m i.
Proof.
  intros H; unfold store.
  destruct (off <=? i) eqn:E1; [|reflexivity].
  destruct (i <? off + Z.of_nat (length data)) eqn:E2; [|reflexivity].
  lia.
Qed.


Lemma read_request (outlen rl : Z) :
  0 <= outlen <= CInt.INT_MAX -> 0 <= rl <= outlen ->
  CInt.to_size_t (CInt.sub outlen rl) = outlen - rl.
Proof.
  intros Ho Hr. unfold CInt.sub.
  rewrite wrap_small by (unfold CInt.INT_MIN, CInt.INT_MAX in *; lia).
  apply to_size_t_small; lia.
Qed.

Lemma read_advance (outlen rl : Z) (data : list byte) :
  0 <= outlen <= CInt.INT_MAX -> 0 <= rl <= outlen ->
  Z.of_nat (length data) <= outlen - rl ->
  read_result (Some data) = Z.of_nat (length data) /\
  CInt.add rl (read_result (Some data)) = rl + Z.of_nat (length data).
Proof.
  intros Ho Hr Hd. unfold read_result, CInt.of_ssize_t, CInt.add.
  rewrite wrap_small by (unfold CInt.INT_MIN, CInt.INT_MAX in *; lia).
  split; [reflexivity|].
  apply wrap_small; unfold CInt.INT_MIN, CInt.INT_MAX in *; lia.
Qed.

Lemma of_ssize_t_failure : CInt.of_ssize_t (-1) = -1.
Proof. reflexivity. Qed.

Lemma load_length (m : mem) (off c : Z) : length (load m off c) = Z.to_nat c.
Proof. unfold load. rewrite length_map, length_seq. reflexivity. Qed.





(** ** Logs *)

Lemma count_app (p : event -> bool) (a b : list event) :
  count p (a ++ b) = (count p a + count p b)%nat.
Proof. unfold count. rewrite filter_app, length_app. reflexivity. Qed.



(** ** One pass of the loop, for any kernel *)

Ltac bool_to_Z :=
  repeat match goal with
    | E : (_ <? _) = true |- _ => apply Z.ltb_lt in E
    | E : (_ <? _) = false |- _ => apply Z.ltb_ge in E
    | E : (_ <=? _) = true |- _ => apply Z.leb_le in E
    | E : (_ <=? _) = false |- _ => apply Z.leb_gt in E
    end.

Section PassFacts.

Context {W : Type} {K : Kernel W}.
Variables (input : mem) (inlen outlen : Z).

Lemma pump_pass_events stdout_r st w c st' evs w' :
  pump_pass input inlen outlen stdout_r st w = Some (c, st', evs, w') ->
  Forall pump_event evs.
Proof.
  intros H. unfold pump_pass, write_leg, read_leg in H.
  open_run H; simpl; repeat constructor; auto.
Qed.

(** The write end of the stdin pipe is closed in a pass only once, only
    while it is open, and only when the write cursor equals [inlen]. *)
Lemma pump_pass_close (OK : KernelOK K) stdout_r st w c st' evs w' :
  fds1_fd st = stdin_fd1 st ->
  pump_pass input inlen outlen stdout_r st w = Some (c, st', evs, w') ->
  fds1_fd st' = stdin_fd1 st' /\
  ((stdin_fd1 st' = stdin_fd1 st /\
    (forall fd, count (is_close fd) evs = 0%nat) /\
    (stdin_fd1 st < 0 -> writelen st' = writelen st))
   \/
   (0 <= stdin_fd1 st /\ stdin_fd1 st' = -1 /\ writelen st' = inlen /\
    forall fd, count (is_close fd) evs
               = if stdin_fd1 st =? fd then 1%nat else 0%nat)).
Proof.
  intros Hfd H. unfold pump_pass, write_leg, read_leg in H.
  open_run H; simpl; (split; [assumption || reflexivity|]).
  all: match goal with E : k_poll _ _ _ = Some (?r, _) |- _ =>
         assert (Hneg : stdin_fd1 st < 0 -> has_flag (revents1 r) POLLOUT = false)
           by (intros Hlt;
               rewrite (poll_ignores_negative K OK _ _ _ _ _ E) by lia;
               reflexivity)
       end.
  all: try solve [left; repeat split; auto; intros; try reflexivity;
                  match goal with Hlt : _ < 0 |- _ =>
                    first [reflexivity
                          | rewrite (Hneg Hlt) in *; discriminate] end].
  all: right.
  all: destruct (Z.lt_ge_cases (stdin_fd1 st) 0) as [Hlt|Hge];
    [rewrite (Hneg Hlt) in *; discriminate|].
  all: repeat split; auto; try lia.
  all: try (match goal with E : (_ =? inlen) = true |- _ =>
              apply Z.eqb_eq in E; simpl in E; exact E end).
  all: intros fd; unfold count; simpl; destruct (stdin_fd1 st =? fd); reflexivity.
Qed.

(** A pass keeps the read cursor and the stores inside the buffer. *)
Lemma pump_pass_read (OK : KernelOK K) stdout_r st w c st' evs w' :
  0 <= outlen <= CInt.INT_MAX ->
  0 <= readlen st <= outlen ->
  pump_pass input inlen outlen stdout_r st w = Some (c, st', evs, w') ->
  -1 <= readlen st' <= outlen /\
  (c = Continue ->
   0 <= readlen st' /\ (readlen st < outlen -> readlen st' < outlen)) /\
  (forall i, i < 0 \/ outlen <= i -> output st' i = output st i) /\
  (forall fd off cnt r,
      In (EvRead fd off cnt r) evs ->
      off = readlen st /\ cnt = outlen - readlen st /\
      forall data, r = Some data ->
                   readlen st + Z.of_nat (length data) <= outlen /\
                   (c = Continue -> readlen st' < outlen)) /\
  (In true (map is_read evs) -> outlen <= readlen st' -> c = Break).
Proof.
  intros Ho Hr H. unfold pump_pass, write_leg, read_leg in H.
  pose proof (read_request outlen (readlen st) Ho Hr) as Hreq.
  open_run H.
  all: try match goal with
    | E : k_read _ _ _ = Some (Some ?l, _) |- _ =>
        simpl in E; rewrite Hreq in E;
        pose proof (read_le K OK _ _ _ _ _ E) as Hle;
        destruct (read_advance outlen (readlen st) l Ho Hr Hle) as [Hn Ha]
    end.
  all: simpl in *; rewrite ?of_ssize_t_failure in *.
  all: try rewrite Hn in *; try rewrite Ha in *; try rewrite Hreq in *.
  all: bool_to_Z.
  all: repeat split; intros; try discriminate; try lia; try reflexivity.
  all: try (apply store_outside; lia).
  all: repeat match goal with
         | E : _ \/ _ |- _ => destruct E
         | E : False |- _ => destruct E
         | E : _ = true |- _ => discriminate E
         | E : EvRead _ _ _ _ = EvRead _ _ _ _ |- _ => injection E as <- <- <- <-
         | E : _ = EvRead _ _ _ _ |- _ => discriminate E
         | E : Some _ = Some _ |- _ => injection E as <-
         | E : None = Some _ |- _ => discriminate E
         end; try lia; try reflexivity.
Qed.

End PassFacts.

(** ** The loop, for any kernel *)

Section LoopFacts.

Context {W : Type} {K : Kernel W}.
Variables (input : mem) (inlen outlen : Z).

Lemma pump_events fuel stdout_r st w st' evs w' :
  pump input inlen outlen fuel stdout_r st w = Some (st', evs, w') ->
  Forall pump_event evs.
Proof.
  revert st w st' evs w'.
  induction fuel as [|fuel IH]; intros st w st' evs w' H; [discriminate|].
  simpl in H. apply bind_inv in H.
  destruct H as ([c st1] & e1 & w1 & e2 & Hpass & Hrest & ->).
  apply Forall_app; split.
  - eapply pump_pass_events; eassumption.
  - destruct c.
    + eapply IH; eassumption.
    + injection Hrest as <- <- <-. constructor.
Qed.

Lemma reach_front stdout_r st w evs st1 w1 st2 w2 :
  pump_pass input inlen outlen stdout_r st w = Some (Continue, st1, evs, w1) ->
  pump_reach input inlen outlen stdout_r st1 w1 st2 w2 ->
  pump_reach input inlen outlen stdout_r st w st2 w2.
Proof.
  intros Hpass Hreach. induction Hreach.
  - eapply reach_next; [apply reach_first | eassumption].
  - eapply reach_next; eassumption.
Qed.

(** A loop that ends went through loop heads and left by a [break]. *)
Lemma pump_last_pass fuel stdout_r st w st' evs w' :
  pump input inlen outlen fuel stdout_r st w = Some (st', evs, w') ->
  exists st1 w1 evs0 evs1,
    pump_reach input inlen outlen stdout_r st w st1 w1 /\
    pump_pass input inlen outlen stdout_r st1 w1 = Some (Break, st', evs1, w') /\
    evs = evs0 ++ evs1.
Proof.
  revert st w st' evs w'.
  induction fuel as [|fuel IH]; intros st w st' evs w' H; [discriminate|].
  simpl in H. apply bind_inv in H.
  destruct H as ([c st1] & e1 & w1 & e2 & Hpass & Hrest & ->).
  destruct c.
  - destruct (IH _ _ _ _ _ Hrest) as (st2 & w2 & evs0 & evs1 & Hr & Hp & ->).
    exists st2, w2, (e1 ++ evs0), evs1. repeat split; auto.
    + eapply reach_front; eassumption.
    + apply app_assoc.
  - injection Hrest as <- <- <-.
    exists st, w, [], e1. repeat split; auto.
    + apply reach_first.
    + rewrite app_nil_r; reflexivity.
Qed.

(** At every loop head the read cursor is inside the buffer and nothing
    outside the buffer was touched. *)
Lemma reach_read (OK : KernelOK K) stdout_r st0 w0 st w :
  0 <= outlen <= CInt.INT_MAX ->
  0 <= readlen st0 <= outlen ->
  pump_reach input inlen outlen stdout_r st0 w0 st w ->
  0 <= readlen st <= outlen /\
  (readlen st0 < outlen -> readlen st < outlen) /\
  (forall i, i < 0 \/ outlen <= i -> output st i = output st0 i).
Proof.
  intros Ho H0 Hreach. induction Hreach as [|st w evs st' w' _ IH Hpass].
  - repeat split; auto; lia.
  - destruct IH as (Hr & Hlt & Hout).
    destruct (pump_pass_read input inlen outlen OK _ _ _ _ _ _ _ Ho Hr Hpass)
      as (Hb & Hc & Hm & _).
    destruct (Hc eq_refl) as [Hc1 Hc2].
    split; [lia|]. split.
    + intros H; apply Hc2, Hlt, H.
    + intros i Hi. rewrite (Hm i Hi). apply Hout, Hi.
Qed.

(** Over the whole loop the write end of the stdin pipe is closed at
    most once, and if so the write cursor is [inlen] at the exit. *)
Lemma pump_close (OK : KernelOK K) fuel stdout_r st w st' evs w' :
  fds1_fd st = stdin_fd1 st ->
  pump input inlen outlen fuel stdout_r st w = Some (st', evs, w') ->
  fds1_fd st' = stdin_fd1 st' /\
  ((stdin_fd1 st' = stdin_fd1 st /\
    (forall fd, count (is_close fd) evs = 0%nat) /\
    (stdin_fd1 st < 0 -> writelen st' = writelen st))
   \/
   (0 <= stdin_fd1 st /\ stdin_fd1 st' = -1 /\ writelen st' = inlen /\
    forall fd, count (is_close fd) evs
               = if stdin_fd1 st =? fd then 1%nat else 0%nat)).
Proof.
  revert st w st' evs w'.
  induction fuel as [|fuel IH]; intros st w st' evs w' Hfd H; [discriminate|].
  simpl in H. apply bind_inv in H.
  destruct H as ([c st1] & e1 & w1 & e2 & Hpass & Hrest & ->).
  destruct (pump_pass_close input inlen outlen OK _ _ _ _ _ _ _ Hfd Hpass)
    as (Hfd1 & Hcase).
  destruct c.
  - destruct (IH _ _ _ _ _ Hfd1 Hrest) as (Hfd' & Hcase').
    split; [assumption|].
    destruct Hcase as [(Hsame & Hnone & Hw)|(Hopen & Hclosed & Hwl & Hone)].
    + destruct Hcase' as [(Hsame' & Hnone' & Hw')|(Hopen' & Hclosed' & Hwl' & Hone')].
      * left. repeat split; try congruence.
        -- intros fd. rewrite count_app, Hnone, Hnone'. reflexivity.
        -- intros Hlt. rewrite Hw' by lia. apply Hw, Hlt.
      * right. repeat split; try congruence; try lia.
        intros fd. rewrite count_app, Hnone, Hone', Hsame. reflexivity.
    + destruct Hcase' as [(Hsame' & Hnone' & Hw')|(Hopen' & _)]; [|lia].
      right. split; [assumption|]. split; [congruence|]. split.
      * rewrite Hw' by lia. assumption.
      * intros fd. rewrite count_app, Hone, Hnone'. lia.
  - injection Hrest as <- <- <-. split; [assumption|].
    destruct Hcase as [(Hsame & Hnone & Hw)|(Hopen & Hclosed & Hwl & Hone)].
    + left. repeat split; auto. intros fd. rewrite count_app, Hnone. reflexivity.
    + right. repeat split; auto. intros fd. rewrite count_app, Hone.
      unfold count; simpl. lia.
Qed.

End LoopFacts.

Section WriteCursor.

Context {W : Type} {K : Kernel W}.
Variables (input : mem) (inlen outlen : Z).

(** A pass only advances the write cursor, and never past [inlen]. *)
Lemma pump_pass_write (OK : KernelOK K) stdout_r st w c st' evs w' :
  0 <= inlen <= CInt.INT_MAX ->
  0 <= writelen st <= inlen ->
  pump_pass input inlen outlen stdout_r st w = Some (c, st', evs, w') ->
  writelen st <= writelen st' <= inlen.
Proof.
  intros Hi Hw H. unfold pump_pass, write_leg, read_leg in H.
  pose proof (read_request inlen (writelen st) Hi Hw) as Hreq.
  open_run H.
  all: try match goal with
    | E : k_write _ _ _ = Some (?z, _) |- _ =>
        rewrite Hreq in E;
        pose proof (write_le K OK _ _ _ _ _ E) as Hle;
        rewrite load_length in Hle;
        assert (Hz : CInt.of_ssize_t z = z)
          by (apply wrap_small; unfold CInt.INT_MIN, CInt.INT_MAX in *; lia);
        rewrite Hz in *;
        assert (Ha : CInt.add (writelen st) z = writelen st + z \/ z < 0)
          by (destruct (Z.lt_ge_cases z 0);
              [right; assumption
              |left; apply wrap_small;
               unfold CInt.INT_MIN, CInt.INT_MAX in *; lia])
    end.
  all: simpl in *; bool_to_Z.
  all: try (destruct Ha as [Ha|Ha]; [rewrite Ha in *|]).
  all: lia.
Qed.

Lemma reach_write (OK : KernelOK K) stdout_r st0 w0 st w :
  0 <= inlen <= CInt.INT_MAX ->
  0 <= writelen st0 <= inlen ->
  pump_reach input inlen outlen stdout_r st0 w0 st w ->
  writelen st0 <= writelen st <= inlen.
Proof.
  intros Hi H0 Hreach. induction Hreach as [|st w evs st' w' _ IH Hpass].
  - lia.
  - assert (Hw : 0 <= writelen st <= inlen) by lia.
    pose proof (pump_pass_write OK _ _ _ _ _ _ _ Hi Hw Hpass). lia.
Qed.

End WriteCursor.

(** ** Reaping, for any kernel *)

Section ReapFacts.

Context {W : Type} {K : Kernel W}.
Variables (inlen : Z).

Lemma reap_inv pid stdout_r st w o evs w' :
  reap inlen pid stdout_r st w = Some (o, evs, w') ->
  exists p status msgs r,
    k_waitpid pid (world_at_wait stdout_r st w) = Some (p, status, w') /\
    evs = cleanup_log stdout_r st ++ EvWaitpid pid p status :: msgs /\
    (forall e, In e msgs -> is_msg e = true) /\
    o = Returned r (output st).
Proof.
  intros H. unfold reap in H. unfold world_at_wait, cleanup_log.
  open_run H; simpl.
  all: match goal with
       | E : k_waitpid _ _ = Some (?p, ?s, _) |- _ =>
           exists p, s; eexists; eexists; split; [reflexivity|]
       end.
  all: split; [reflexivity|].
  all: split; [|reflexivity].
  all: simpl; intros e He;
    repeat (destruct He as [<-|He]; [reflexivity|]); destruct He.
Qed.

Lemma reap_run pid stdout_r st w p status w' :
  k_waitpid pid (world_at_wait stdout_r st w) = Some (p, status, w') ->
  exists r msgs,
    reap inlen pid stdout_r st w
    = Some (Returned r (output st),
            cleanup_log stdout_r st ++ EvWaitpid pid p status :: msgs, w') /\
    (r, msgs) =
      if negb (p =? pid) then (-1, [EvMsg "waitpid error."])
      else if WIFEXITED status then
        if negb (WEXITSTATUS status =? 0) then
          (CInt.neg (WEXITSTATUS status), [EvMsg "child exited with status"])
        else if negb (writelen st =? inlen) then
          (-1, [EvMsg "Incomplete write."])
        else (readlen st, [])
      else (-1, [EvMsg "child process did not exit"]).
Proof.
  intros H. unfold world_at_wait in H.
  unfold reap, cleanup_log, bind, close, waitpid, ret, error, syserror, emit.
  destruct (0 <=? stdin_fd1 st); rewrite H; simpl.
  all: destruct (negb (p =? pid)); simpl; [eexists; eexists; split; reflexivity|].
  all: destruct (WIFEXITED status); simpl; [|eexists; eexists; split; reflexivity].
  all: destruct (negb (WEXITSTATUS status =? 0)); simpl;
    [eexists; eexists; split; reflexivity|].
  all: destruct (negb (writelen st =? inlen)); simpl;
    eexists; eexists; split; reflexivity.
Qed.

End ReapFacts.

Lemma WEXITSTATUS_range (status : Z) : 0 <= WEXITSTATUS status <= 255.
Proof.
  unfold WEXITSTATUS. rewrite Z.shiftr_land.
  change (Z.shiftr 65280 8) with (Z.ones 8).
  rewrite Z.land_ones by lia.
  pose proof (Z.mod_pos_bound (Z.shiftr status 8) (2 ^ 8)). lia.
Qed.

Lemma neg_exit_status (status : Z) :
  CInt.neg (WEXITSTATUS status) = - WEXITSTATUS status.
Proof.
  pose proof (WEXITSTATUS_range status).
  apply wrap_small. unfold CInt.INT_MIN, CInt.INT_MAX. lia.
Qed.

(** ** The whole call, for any kernel *)

Section CallFacts.

Context {W : Type} {K : Kernel W}.
Variables (cmd : string) (argv : option (list string)).
Variables (input : mem) (inlen outlen : Z).

(** Lines 90-209 once the spawn phase has reached the parent. *)
Lemma popen2_parent fuel out w pid stdin_r stdin_w stdout_r stdout_w w1 w2 w3 :
  k_pipe w = (Some (stdin_r, stdin_w), w1) ->
  k_pipe w1 = (Some (stdout_r, stdout_w), w2) ->
  k_fork w2 = (pid, w3) ->
  0 < pid ->
  popen2 cmd argv input inlen outlen fuel out w =
  match pump input inlen outlen fuel stdout_r (pump_init stdin_w out)
             (k_close stdout_w (k_close stdin_r w3)) with
  | None => None
  | Some (st, evs, w4) =>
      match reap inlen pid stdout_r st w4 with
      | None => None
      | Some (o, e2, w5) =>
          Some (o, spawn_log pid stdin_r stdin_w stdout_r stdout_w
                     ++ evs ++ e2, w5)
      end
  end.
Proof.
  intros H1 H2 H3 Hpid.
  unfold popen2, parent, bind, pipe, fork, close.
  rewrite H1, H2, H3.
  destruct (pid <? 0) eqn:E1; [apply Z.ltb_lt in E1; lia|].
  destruct (pid =? 0) eqn:E2; [apply Z.eqb_eq in E2; lia|].
  destruct (pump _ _ _ _ _ _ _) as [[[st evs] w4]|]; [|reflexivity].
  destruct (reap _ _ _ _ _) as [[[o e2] w5]|]; reflexivity.
Qed.

Lemma popen2_leaves_loop fuel out w pid stdin_r stdin_w stdout_r stdout_w
      st evs w4 :
  leaves_loop input inlen outlen fuel out w pid stdin_r stdin_w stdout_r
              stdout_w st evs w4 ->
  popen2 cmd argv input inlen outlen fuel out w =
  match reap inlen pid stdout_r st w4 with
  | None => None
  | Some (o, e2, w5) =>
      Some (o, spawn_log pid stdin_r stdin_w stdout_r stdout_w ++ evs ++ e2, w5)
  end.
Proof.
  intros (w1 & w2 & w3 & H1 & H2 & H3 & Hpid & Hpump).
  rewrite (popen2_parent fuel out w pid _ _ _ _ _ _ _ H1 H2 H3 Hpid), Hpump.
  reflexivity.
Qed.

(** Lines 74-87 when the image cannot be replaced. *)
Lemma popen2_child_exec_fails fuel out w stdin_r stdin_w stdout_r stdout_w
      w1 w2 w3 w4 :
  k_pipe w = (Some (stdin_r, stdin_w), w1) ->
  k_pipe w1 = (Some (stdout_r, stdout_w), w2) ->
  k_fork w2 = (0, w3) ->
  k_exec cmd argv
         (k_dup2 stdout_w STDOUT_FILENO
            (k_close stdout_r
               (k_dup2 stdin_r STDIN_FILENO (k_close stdin_w w3))))
  = (false, w4) ->
  popen2 cmd argv input inlen outlen fuel out w =
  Some (ChildExit 127,
        [EvPipe (Some (stdin_r, stdin_w)); EvPipe (Some (stdout_r, stdout_w));
         EvFork 0; EvClose stdin_w; EvDup2 stdin_r STDIN_FILENO;
         EvClose stdout_r; EvDup2 stdout_w STDOUT_FILENO; EvExec cmd argv;
         EvMsg "Error running."; EvExit 127],
        w4).
Proof.
  intros H1 H2 H3 H4.
  unfold popen2, child, bind, pipe, fork, close, dup2, exec, syserror, emit, ret.
  rewrite H1, H2, H3. simpl. rewrite H4. reflexivity.
Qed.

End CallFacts.

Section WholeCall.

Context {W : Type} {K : Kernel W}.
Variables (cmd : string) (argv : option (list string)).
Variables (input : mem) (inlen outlen : Z).

(** What a call that returns hands back: a result that is at most the
    capacity, and a buffer that differs from the caller's only in its
    first [outlen] bytes. *)
Lemma popen2_output_within_capacity (OK : KernelOK K) fuel out w r out' log w' :
  0 <= outlen <= CInt.INT_MAX ->
  popen2 cmd argv input inlen outlen fuel out w
  = Some (Returned r out', log, w') ->
  r <= outlen /\ forall i, i < 0 \/ outlen <= i -> out' i = out i.
Proof.
  intros Ho H. unfold popen2, child, parent in H.
  open_run H; try (split; [lia|reflexivity]).
  injection H as -> _ _.
  match goal with
  | Hp : pump _ _ _ _ _ _ _ = Some _ |- _ => rename Hp into Hpump
  end.
  match goal with
  | Hr : reap _ _ _ _ _ = Some _ |- _ => rename Hr into Hreap
  end.
  destruct (pump_last_pass _ _ _ _ _ _ _ _ _ _ Hpump)
    as (st1 & w1' & evs0 & evs1 & Hreach & Hpass & _).
  destruct (reap_inv _ _ _ _ _ _ _ _ Hreap)
    as (p' & status & msgs & r' & Hwait & _ & _ & Hres).
  destruct (reap_run inlen _ _ _ _ _ _ _ Hwait)
    as (r2 & msgs2 & Hrun & Hval).
  rewrite Hrun in Hreap. injection Hreap as <- <- _.
  assert (H0 : forall sw, 0 <= readlen (pump_init sw out) <= outlen)
    by (intros sw; simpl; lia).
  destruct (reach_read input inlen outlen OK _ _ _ _ _ Ho (H0 _) Hreach)
    as (Hr1 & _ & Hout1).
  destruct (pump_pass_read input inlen outlen OK _ _ _ _ _ _ _ Ho Hr1 Hpass)
    as (Hb & _ & Hm & _).
  split; [|intros i Hi; rewrite (Hm i Hi); apply Hout1, Hi].
  pose proof (WEXITSTATUS_range status) as Hrange.
  pose proof (neg_exit_status status) as Hneg.
  destruct (negb (p' =? _)); [injection Hval as -> _; lia|].
  destruct (WIFEXITED status); [|injection Hval as -> _; lia].
  destruct (negb (WEXITSTATUS status =? 0)); [injection Hval as -> _; lia|].
  destruct (negb (writelen _ =? inlen)); injection Hval as -> _; lia.
Qed.

End WholeCall.

(** ** The scripted kernel keeps the promises of [KernelOK] *)

Lemma script_kernel_ok : KernelOK Script.kernel.
Proof.
  constructor.
  - intros fd cnt w data w' H. simpl in H. unfold Script.s_read in H.
    destruct (Script.reads w) as [|[d|] rs]; try discriminate.
    destruct (cnt <? 0) eqn:E; [discriminate|].
    apply Z.ltb_ge in E. injection H as <- <-.
    rewrite length_firstn. lia.
  - intros fd data w n w' H. simpl in H. unfold Script.s_write in H.
    destruct (Script.writes w) as [|m ms]; injection H as <- <-; lia.
  - intros fd0 fd1 w r w' H Hneg. simpl in H. unfold Script.s_poll in H.
    destruct (Script.polls w) as [|p ps]; [discriminate|].
    injection H as <- <-. simpl. unfold Script.mask.
    destruct (fd1 <? 0) eqn:E; [reflexivity|apply Z.ltb_ge in E; lia].
Qed.

(** The reference model keeps the promises of [KernelOK]. *)
Lemma sim_kernel_ok : KernelOK Sim.kernel.
Proof.
  constructor.
  - intros fd cnt w data w' H. simpl in H. unfold Sim.m_read in H.
    destruct (Sim.run_burst (Sim.sched w) (Sim.state w)) as [s1 y1].
    destruct ((fd =? Sim.stdout_r) && Sim.out_r_open y1 && (0 <=? cnt)) eqn:E;
      [|discriminate].
    destruct (Sim.await Sim.has_data (Sim.patience y1) s1 y1) as [[s2 y2]|];
      [|discriminate].
    injection H as <- _.
    apply andb_true_iff in E. destruct E as [_ E]. apply Z.leb_le in E.
    rewrite length_firstn. lia.
  - intros fd data w n w' H. simpl in H. unfold Sim.m_write in H.
    destruct (Sim.run_burst (Sim.sched w) (Sim.state w)) as [s1 y1].
    destruct ((fd =? Sim.stdin_w) && Sim.in_w_open y1).
    + destruct (Sim.await Sim.has_room (Sim.patience y1) s1 y1) as [[s2 y2]|];
        [|discriminate].
      destruct (Sim.exited y2); injection H as <- _; lia.
    + injection H as <- _. lia.
  - intros fd0 fd1 w r w' H Hneg. simpl in H. unfold Sim.m_poll in H.
    destruct (Sim.run_burst (Sim.sched w) (Sim.state w)) as [s1 y1].
    destruct (Sim.await _ _ s1 y1) as [[s2 y2]|]; [|discriminate].
    injection H as <- _. simpl. unfold Sim.rev_stdin.
    destruct (fd1 <? 0) eqn:E; [reflexivity|apply Z.ltb_ge in E; lia].
Qed.

(** ** What the specification states, for any kernel *)

(** C3.  At every point of the loop the read cursor [readlen] is at most
    the capacity [outlen], and nothing is stored outside the first
    [outlen] bytes of the output buffer: at every loop head that can be
    reached, and after the pass made from it, the cursor is within
    bounds (strictly below a positive capacity at the loop head, where
    the next read is decided) and the memory below offset 0 and from
    offset [outlen] on is what the caller passed; every read is asked
    for exactly
    [outlen - readlen] bytes at offset [readlen] and stores no byte past
    [outlen]; a pass that has read and left [readlen >= outlen] leaves
    the loop, so no further read follows; and a call that returns hands
    back a result that is at most [outlen] and a buffer that differs
    from the caller's only in its first [outlen] bytes.  The kernel is
    any one that keeps [KernelOK] ([read] returns no more than it was
    asked for); the capacity is a non-negative [int]. *)
Theorem output_cursor_within_capacity
        {W : Type} {K : Kernel W} (OK : KernelOK K)
        (input : mem) (inlen outlen stdin_w stdout_r : Z) (out : mem)
        (w0 : W) (st : pstate) (w : W)
        (c : ctl) (st' : pstate) (evs : list event) (w' : W) :
  0 <= outlen <= CInt.INT_MAX ->
  pump_reach input inlen outlen stdout_r (pump_init stdin_w out) w0 st w ->
  pump_pass input inlen outlen stdout_r st w = Some (c, st', evs, w') ->
  (0 <= readlen st <= outlen /\ readlen st' <= outlen) /\
  (0 < outlen -> readlen st < outlen) /\
  (forall i, i < 0 \/ outlen <= i ->
             output st i = out i /\ output st' i = out i) /\
  (forall fd off cnt r,
      In (EvRead fd off cnt r) evs ->
      off = readlen st /\ cnt = outlen - readlen st /\
      forall data, r = Some data -> off + Z.of_nat (length data) <= outlen) /\
  (In true (map is_read evs) -> outlen <= readlen st' -> c = Break) /\
  (forall cmd argv fuel wc r out' log wc',
      popen2 cmd argv input inlen outlen fuel out wc
      = Some (Returned r out', log, wc') ->
      r <= outlen /\ forall i, i < 0 \/ outlen <= i -> out' i = out i).
Proof.
  intros Ho Hreach Hpass.
  assert (H0 : 0 <= readlen (pump_init stdin_w out) <= outlen) by (simpl; lia).
  destruct (reach_read input inlen outlen OK _ _ _ _ _ Ho H0 Hreach)
    as (Hr & Hlt & Hout).
  destruct (pump_pass_read input inlen outlen OK _ _ _ _ _ _ _ Ho Hr Hpass)
    as (Hb & _ & Hm & Hev & Hstop).
  split; [lia|]. split; [exact Hlt|].
  split; [|split; [|split; [exact Hstop|]]].
  3:{ intros cmd argv fuel wc r out' log wc' Hrun.
      exact (popen2_output_within_capacity cmd argv input inlen outlen OK
               fuel out wc r out' log wc' Ho Hrun). }
  - intros i Hi. split; [apply Hout, Hi|].
    rewrite (Hm i Hi). apply Hout, Hi.
  - intros fd off cnt r Hin.
    destruct (Hev fd off cnt r Hin) as (-> & -> & Hd).
    repeat split. intros data ->. apply (Hd data eq_refl).
Qed.

Lemma output_cursor_within_capacity_witness :
  let input : mem := fun _ => x00 in
  let out : mem := fun _ => x00 in
  let w := Script.parent_world [PollRet 1 POLLIN 0] []
                               [Some [x61; x62; x63; x64; x65; x66]] None in
  let st := pump_init 4 out in
  exists c st' evs w',
    0 <= 4 <= CInt.INT_MAX /\
    pump_reach input 0 4 5 st w st w /\
    pump_pass input 0 4 5 st w = Some (c, st', evs, w') /\
    readlen st' = 4 /\ c = Break /\
    (forall i, i < 0 \/ 4 <= i -> output st' i = out i).
Proof.
  intros input out w st.
  assert (Ho : 0 <= 4 <= CInt.INT_MAX) by (unfold CInt.INT_MAX; lia).
  assert (Hreach : pump_reach input 0 4 5 st w st w) by apply reach_first.
  destruct (pump_pass input 0 4 5 st w) as [[[[c st'] evs] w']|] eqn:Hpass;
    [|discriminate Hpass].
  exists c, st', evs, w'.
  pose proof (output_cursor_within_capacity script_kernel_ok input 0 4 4 5 out
                w st w c st' evs w' Ho Hreach Hpass) as (_ & _ & Hmem & _ & _ & _).
  vm_compute in Hpass. injection Hpass as <- <- <- <-.
  repeat split; try (unfold CInt.INT_MAX; lia); try assumption.
  intros i Hi. apply (Hmem i Hi).
Defined.

(** A scripted run that reaches the parent leaves the loop as computed. *)
Ltac script_leaves_loop :=
  unfold leaves_loop; do 3 eexists;
  repeat (split; [reflexivity || lia|]); vm_compute; reflexivity.

(** C5.  When the child exits normally with status 0 but the write
    cursor is not the input length when the child is reaped, [popen2]
    returns -1 (after the message "Incomplete write."), not the number
    of bytes read. *)
Theorem incomplete_write_returns_failure
        {W : Type} {K : Kernel W}
        (cmd : string) (argv : option (list string))
        (input : mem) (inlen outlen : Z) (fuel : nat) (out : mem) (w : W)
        (pid stdin_r stdin_w stdout_r stdout_w : Z)
        (st : pstate) (evs : list event) (w4 : W) (status : Z) (w5 : W) :
  leaves_loop input inlen outlen fuel out w pid stdin_r stdin_w stdout_r
              stdout_w st evs w4 ->
  k_waitpid pid (world_at_wait stdout_r st w4) = Some (pid, status, w5) ->
  WIFEXITED status = true ->
  WEXITSTATUS status = 0 ->
  writelen st <> inlen ->
  popen2 cmd argv input inlen outlen fuel out w =
  Some (Returned (-1) (output st),
        spawn_log pid stdin_r stdin_w stdout_r stdout_w ++ evs
          ++ cleanup_log stdout_r st
          ++ [EvWaitpid pid pid status; EvMsg "Incomplete write."],
        w5).
Proof.
  intros Hloop Hwait Hexited Hzero Hshort.
  rewrite (popen2_leaves_loop cmd argv _ _ _ _ _ _ _ _ _ _ _ _ _ _ Hloop).
  destruct (reap_run inlen _ _ _ _ _ _ _ Hwait) as (r & msgs & -> & Hr).
  rewrite Z.eqb_refl, Hexited, Hzero in Hr. simpl in Hr.
  destruct (writelen st =? inlen) eqn:E; [apply Z.eqb_eq in E; contradiction|].
  simpl in Hr. injection Hr as -> ->. reflexivity.
Qed.

Lemma incomplete_write_returns_failure_witness :
  let input := mem_of_list [x61; x62; x63] in
  let out : mem := fun _ => x00 in
  let w := Script.parent_world [PollRet 1 POLLHUP 0] [] [] (Some (100, 0)) in
  exists st evs w4 log,
    leaves_loop input 3 8 1 out w 100 3 4 5 6 st evs w4 /\
    writelen st <> 3 /\
    popen2 "cat" None input 3 8 1 out w = Some (Returned (-1) (output st), log, w4).
Proof.
  intros input out w.
  assert (Hloop : leaves_loop input 3 8 1 out w 100 3 4 5 6
                              (pump_init 4 out)
                              [EvPoll 5 4 (PollRet 1 POLLHUP 0)]
                              (Script.World [] 100 true [] [] [] (Some (100, 0))))
    by script_leaves_loop.
  do 4 eexists. split; [exact Hloop|]. split; [simpl; lia|].
  apply (incomplete_write_returns_failure "cat" None input 3 8 1 out w
           100 3 4 5 6 _ _ _ 0 _ Hloop); try reflexivity.
  simpl; lia.
Defined.

(** C10.  When the child exits normally with a nonzero status S and the
    input was not delivered in full (write cursor below the input
    length), [popen2] returns -S: the exit status is classified first,
    the result is decided there (the log ends with the message of that
    branch), and the check of the write cursor is not reached. *)
Theorem exit_status_precedes_incomplete_write
        {W : Type} {K : Kernel W}
        (cmd : string) (argv : option (list string))
        (input : mem) (inlen outlen : Z) (fuel : nat) (out : mem) (w : W)
        (pid stdin_r stdin_w stdout_r stdout_w : Z)
        (st : pstate) (evs : list event) (w4 : W) (status S : Z) (w5 : W) :
  leaves_loop input inlen outlen fuel out w pid stdin_r stdin_w stdout_r
              stdout_w st evs w4 ->
  k_waitpid pid (world_at_wait stdout_r st w4) = Some (pid, status, w5) ->
  WIFEXITED status = true ->
  WEXITSTATUS status = S ->
  S <> 0 ->
  writelen st < inlen ->
  popen2 cmd argv input inlen outlen fuel out w =
  Some (Returned (- S) (output st),
        spawn_log pid stdin_r stdin_w stdout_r stdout_w ++ evs
          ++ cleanup_log stdout_r st
          ++ [EvWaitpid pid pid status; EvMsg "child exited with status"],
        w5).
Proof.
  intros Hloop Hwait Hexited HS Hnz Hshort.
  rewrite (popen2_leaves_loop cmd argv _ _ _ _ _ _ _ _ _ _ _ _ _ _ Hloop).
  destruct (reap_run inlen _ _ _ _ _ _ _ Hwait) as (r & msgs & -> & Hr).
  rewrite Z.eqb_refl, Hexited, HS in Hr. simpl in Hr.
  destruct (S =? 0) eqn:E; [apply Z.eqb_eq in E; contradiction|].
  simpl in Hr. injection Hr as -> ->.
  rewrite <- HS, neg_exit_status. reflexivity.
Qed.

Lemma exit_status_precedes_incomplete_write_witness :
  let input := mem_of_list [x61; x62; x63] in
  let out : mem := fun _ => x00 in
  let w := Script.parent_world [PollRet 1 POLLHUP 0] [] [] (Some (100, 512)) in
  exists st evs w4 log,
    leaves_loop input 3 8 1 out w 100 3 4 5 6 st evs w4 /\
    writelen st < 3 /\
    WIFEXITED 512 = true /\ WEXITSTATUS 512 = 2 /\
    popen2 "false" None input 3 8 1 out w = Some (Returned (-2) (output st), log, w4).
Proof.
  intros input out w.
  assert (Hloop : leaves_loop input 3 8 1 out w 100 3 4 5 6
                              (pump_init 4 out)
                              [EvPoll 5 4 (PollRet 1 POLLHUP 0)]
                              (Script.World [] 100 true [] [] [] (Some (100, 512))))
    by script_leaves_loop.
  do 4 eexists. split; [exact Hloop|]. split; [simpl; lia|].
  split; [reflexivity|]. split; [reflexivity|].
  apply (exit_status_precedes_incomplete_write "false" None input 3 8 1 out w
           100 3 4 5 6 _ _ _ 512 2 _ Hloop); try reflexivity; simpl; lia.
Defined.

(** C4.  When the child terminates by a normal exit with status S,
    1 <= S <= 255, [popen2] returns -S.  In particular for a command
    that cannot be launched: in the child, when the image cannot be
    replaced, the process leaves [popen2] by exit(127) (second part,
    for every world in which fork answers 0 and exec fails); the wait
    status of such an exit is a normal exit with status 127 (third
    part), for which the first part gives -127. *)
Theorem nonzero_exit_status_is_returned_negated
        {W : Type} {K : Kernel W}
        (cmd : string) (argv : option (list string))
        (input : mem) (inlen outlen : Z) (fuel : nat) (out : mem) (w : W)
        (pid stdin_r stdin_w stdout_r stdout_w : Z)
        (st : pstate) (evs : list event) (w4 : W) (status S : Z) (w5 : W) :
  1 <= S <= 255 ->
  leaves_loop input inlen outlen fuel out w pid stdin_r stdin_w stdout_r
              stdout_w st evs w4 ->
  k_waitpid pid (world_at_wait stdout_r st w4) = Some (pid, status, w5) ->
  WIFEXITED status = true ->
  WEXITSTATUS status = S ->
  (exists log,
      popen2 cmd argv input inlen outlen fuel out w
      = Some (Returned (- S) (output st), log, w5)) /\
  (forall (wc : W) (r1 w1' r2 w2' : Z) (wc1 wc2 wc3 wc4 : W),
      k_pipe wc = (Some (r1, w1'), wc1) ->
      k_pipe wc1 = (Some (r2, w2'), wc2) ->
      k_fork wc2 = (0, wc3) ->
      k_exec cmd argv
             (k_dup2 w2' STDOUT_FILENO
                (k_close r2 (k_dup2 r1 STDIN_FILENO (k_close w1' wc3))))
      = (false, wc4) ->
      exists log,
        popen2 cmd argv input inlen outlen fuel out wc
        = Some (ChildExit 127, log ++ [EvExit 127], wc4)) /\
  (WIFEXITED (127 * 256) = true /\ WEXITSTATUS (127 * 256) = 127).
Proof.
  intros HS Hloop Hwait Hexited Hst.
  split; [|split].
  - rewrite (popen2_leaves_loop cmd argv _ _ _ _ _ _ _ _ _ _ _ _ _ _ Hloop).
    destruct (reap_run inlen _ _ _ _ _ _ _ Hwait) as (r & msgs & -> & Hr).
    rewrite Z.eqb_refl, Hexited, Hst in Hr. simpl in Hr.
    destruct (S =? 0) eqn:E; [apply Z.eqb_eq in E; lia|].
    simpl in Hr. injection Hr as -> ->.
    rewrite <- Hst, neg_exit_status. eexists; reflexivity.
  - intros wc r1 w1' r2 w2' wc1 wc2 wc3 wc4 H1 H2 H3 H4.
    rewrite (popen2_child_exec_fails cmd argv input inlen outlen fuel out wc
               _ _ _ _ _ _ _ _ H1 H2 H3 H4).
    eexists.
    change [EvPipe (Some (r1, w1')); EvPipe (Some (r2, w2')); EvFork 0;
            EvClose w1'; EvDup2 r1 STDIN_FILENO; EvClose r2;
            EvDup2 w2' STDOUT_FILENO; EvExec cmd argv;
            EvMsg "Error running."; EvExit 127]
      with ([EvPipe (Some (r1, w1')); EvPipe (Some (r2, w2')); EvFork 0;
             EvClose w1'; EvDup2 r1 STDIN_FILENO; EvClose r2;
             EvDup2 w2' STDOUT_FILENO; EvExec cmd argv;
             EvMsg "Error running."] ++ [EvExit 127]).
    reflexivity.
  - apply WEXITSTATUS_exit; lia.
Qed.

Lemma nonzero_exit_status_is_returned_negated_witness :
  let input : mem := fun _ => x00 in
  let out : mem := fun _ => x00 in
  let w := Script.parent_world [PollRet 1 POLLHUP 4] [] []
                               (Some (100, 127 * 256)) in
  let wc := Script.World [Some (3, 4); Some (5, 6)] 0 false [] [] [] None in
  exists st evs w4 log logc,
    leaves_loop input 0 8 1 out w 100 3 4 5 6 st evs w4 /\
    popen2 "nonexistent-binary-xyz" None input 0 8 1 out w
    = Some (Returned (-127) (output st), log, w4) /\
    popen2 "nonexistent-binary-xyz" None input 0 8 1 out wc
    = Some (ChildExit 127, logc ++ [EvExit 127],
            Script.World [] 0 false [] [] [] None).
Proof.
  intros input out w wc.
  assert (Hloop : leaves_loop input 0 8 1 out w 100 3 4 5 6
                              (forget_stdin (pump_init 4 out))
                              [EvPoll 5 4 (PollRet 1 POLLHUP 4); EvClose 4]
                              (Script.World [] 100 true [] [] []
                                            (Some (100, 127 * 256))))
    by script_leaves_loop.
  assert (HS : 1 <= 127 <= 255) by lia.
  destruct (nonzero_exit_status_is_returned_negated
              "nonexistent-binary-xyz" None input 0 8 1 out w 100 3 4 5 6
              _ _ _ (127 * 256) 127 _ HS Hloop eq_refl eq_refl eq_refl)
    as ((log & Hparent) & Hchild & _).
  destruct (Hchild wc 3 4 5 6 _ _ _ _ eq_refl eq_refl eq_refl eq_refl)
    as (logc & Hc).
  do 3 eexists. exists log, logc.
  split; [exact Hloop|]. split; [exact Hparent|exact Hc].
Defined.





(** C8 (the code departs from the specification).  When fork fails, and when the
    second pipe cannot be created, [popen2] returns -1 straight away:
    the log holds no close at all, so the descriptors of the pipes that
    were created stay open. *)
Theorem spawn_failure_leaks_descriptors
        (cmd : string) (argv : option (list string))
        (input : mem) (inlen outlen : Z) (fuel : nat) (out : mem) :
  popen2 cmd argv input inlen outlen fuel out
         (Script.World [Some (3, 4); Some (5, 6)] (-1) true [] [] [] None)
  = Some (Returned (-1) out,
          [EvPipe (Some (3, 4)); EvPipe (Some (5, 6)); EvFork (-1);
           EvMsg "Fork error."],
          Script.World [] (-1) true [] [] [] None)
  /\
  popen2 cmd argv input inlen outlen fuel out
         (Script.World [Some (3, 4); None] 100 true [] [] [] None)
  = Some (Returned (-1) out,
          [EvPipe (Some (3, 4)); EvPipe None; EvMsg "Failed to create pipe."],
          Script.World [] 100 true [] [] [] None).
Proof. split; reflexivity. Qed.

Section CloseFacts.

Context {W : Type} {K : Kernel W}.
Variables (input : mem) (inlen outlen : Z).


End CloseFacts.




(** C2 (the code departs from the specification).  A child that prints the six
    bytes "hello!" into a pipe with room for them and exits with status
    0, run with an empty input and a capacity of 4: the loop is left on
    "Output too long." after four bytes, and [popen2] returns 4, the
    capacity, not a negative number. *)
Theorem overflow_returns_capacity :
  let pre := [x68; x65; x6c; x6c; x6f; x21] in
  let w := Sim.init 8 pre [Some (Sim.TWrite 7)] in
  exists out log w',
    popen2 "printf" None (fun _ => x00) 0 4 2 (fun _ => x00) w
    = Some (Returned 4 out, log, w') /\
    In (EvMsg "Output too long.") log /\
    load out 0 4 = [x68; x65; x6c; x6c] /\
    Sim.status (Sim.state w') = Some 0.
Proof.
  intros pre w. do 3 eexists.
  split; [vm_compute; reflexivity|].
  split; [simpl; auto 20|].
  split; reflexivity.
Qed.


(** * The bridge against the reference model *)

(** ** The child of the reference model *)




Section ChildInv.

Variables (input : mem) (inlen : Z) (pre : list byte).



End ChildInv.






Section Ready.

Variables (input : mem) (inlen : Z) (pre : list byte).







End Ready.


Section Calls.

Variables (input : mem) (inlen outlen : Z) (pre : list byte).

Hypothesis inlen_nonneg : 0 <= inlen.
Hypothesis fits : Z.of_nat (length pre) + inlen <= outlen.
Hypothesis outlen_int : outlen <= CInt.INT_MAX.






End Calls.

Lemma bind_some {W A B} (m : M W A) (f : A -> M W B) w a e1 w1 :
  m w = Some (a, e1, w1) ->
  bind m f w = match f a w1 with
               | None => None
               | Some (b, e2, w2) => Some (b, e1 ++ e2, w2)
               end.
Proof. unfold bind. intros ->. reflexivity. Qed.

Section Pass.

Variables (input : mem) (inlen outlen : Z) (pre : list byte).

Hypothesis inlen_nonneg : 0 <= inlen.
Hypothesis fits : Z.of_nat (length pre) + inlen <= outlen.
Hypothesis outlen_int : outlen <= CInt.INT_MAX.







End Pass.



(** ** The child once everything is forwarded *)




Section Whole.

Variables (input : mem) (inlen outlen : Z) (pre : list byte).

Hypothesis inlen_nonneg : 0 <= inlen.
Hypothesis fits : Z.of_nat (length pre) + inlen <= outlen.
Hypothesis outlen_int : outlen <= CInt.INT_MAX.




End Whole.

Section Start.

Variables (input : mem) (inlen : Z) (pre : list byte).


End Start.

(** ** The call against the reference model *)


(** ** The order of the legs in a pass, for any kernel *)



(** ** What the specification states about a child, against the reference model *)





(** * Further properties of the call, for any kernel *)

(** ** Logs and buffers *)

Lemma received_app (a b : list event) :
  received (a ++ b) = received a ++ received b.
Proof.
  induction a as [|e a IH]; [reflexivity|].
  destruct e; simpl; auto.
  match goal with
  | |- context [match ?r with _ => _ end] => destruct r
  end; simpl; auto.
  rewrite IH, app_assoc. reflexivity.
Qed.


(** ** The data that passes through the loop *)

Section PassData.

Context {W : Type} {K : Kernel W}.

Variables (input : mem) (inlen outlen : Z).

(** What one pass stores and how far it moves the read cursor. *)
Lemma pump_pass_received (OK : KernelOK K) stdout_r st w c st' evs w' :
  0 <= outlen <= CInt.INT_MAX ->
  0 <= readlen st <= outlen ->
  pump_pass input inlen outlen stdout_r st w = Some (c, st', evs, w') ->
  (forall i, output st' i = store (output st) (readlen st) (received evs) i) /\
  (readlen st' = readlen st + Z.of_nat (length (received evs)) \/
   (readlen st' = -1 /\ c = Break)) /\
  readlen st + Z.of_nat (length (received evs)) <= outlen.
Proof.
  intros Ho Hr H. unfold pump_pass, write_leg, read_leg in H.
  pose proof (read_request outlen (readlen st) Ho Hr) as Hreq.
  open_run H.
  all: try match goal with
    | E : k_read _ _ _ = Some (Some ?l, _) |- _ =>
        simpl in E; rewrite Hreq in E;
        pose proof (read_le K OK _ _ _ _ _ E) as Hle;
        destruct (read_advance outlen (readlen st) l Ho Hr Hle) as [Hn Ha]
    end.
  all: simpl in *; rewrite ?of_ssize_t_failure in *.
  all: try rewrite Hn in *; try rewrite Ha in *.
  all: rewrite ?app_nil_r.
  all: split; [intros i; unfold store; simpl;
               try (destruct ((readlen st <=? i) && (i <? readlen st + 0)) eqn:E;
                    [lia|reflexivity]); reflexivity|].
  all: split; [first [left; simpl; lia | right; split; reflexivity]|lia].
Qed.

End PassData.

Lemma store_app (m : mem) (a : Z) (d1 d2 : list byte) (i : Z) :
  store (store m a d1) (a + Z.of_nat (length d1)) d2 i = store m a (d1 ++ d2) i.
Proof.
  unfold store. rewrite length_app, Nat2Z.inj_add.
  destruct (a + Z.of_nat (length d1) <=? i) eqn:E1; simpl.
  - destruct (i <? a + Z.of_nat (length d1) + Z.of_nat (length d2)) eqn:E2; simpl.
    + apply Z.leb_le in E1. apply Z.ltb_lt in E2.
      destruct (a <=? i) eqn:E3; [|apply Z.leb_gt in E3; lia].
      destruct (i <? a + (Z.of_nat (length d1) + Z.of_nat (length d2))) eqn:E4;
        [|apply Z.ltb_ge in E4; lia].
      simpl. rewrite app_nth2 by lia. f_equal. lia.
    + apply Z.leb_le in E1. apply Z.ltb_ge in E2.
      destruct (a <=? i) eqn:E3; simpl.
      * destruct (i <? a + Z.of_nat (length d1)) eqn:E5;
          [apply Z.ltb_lt in E5; lia|].
        destruct (i <? a + (Z.of_nat (length d1) + Z.of_nat (length d2))) eqn:E4;
          [apply Z.ltb_lt in E4; lia|reflexivity].
      * reflexivity.
  - apply Z.leb_gt in E1.
    destruct (a <=? i) eqn:E3; simpl; [|reflexivity].
    apply Z.leb_le in E3.
    destruct (i <? a + Z.of_nat (length d1)) eqn:E5;
      [|apply Z.ltb_ge in E5; lia].
    destruct (i <? a + (Z.of_nat (length d1) + Z.of_nat (length d2))) eqn:E4;
      [|apply Z.ltb_ge in E4; apply Z.ltb_lt in E5; lia].
    apply Z.ltb_lt in E5. rewrite app_nth1 by lia. reflexivity.
Qed.

Lemma store_ext (m m' : mem) (a : Z) (d : list byte) (i : Z) :
  m i = m' i -> store m a d i = store m' a d i.
Proof. intros H. unfold store. rewrite H. reflexivity. Qed.

Section LoopData.

Context {W : Type} {K : Kernel W}.

Variables (input : mem) (inlen outlen : Z).

Lemma pump_received (OK : KernelOK K) fuel stdout_r st w st' evs w' :
  0 <= outlen <= CInt.INT_MAX ->
  0 <= readlen st <= outlen ->
  pump input inlen outlen fuel stdout_r st w = Some (st', evs, w') ->
  (forall i, output st' i = store (output st) (readlen st) (received evs) i) /\
  (readlen st' = readlen st + Z.of_nat (length (received evs)) \/
   readlen st' = -1) /\
  readlen st + Z.of_nat (length (received evs)) <= outlen.
Proof.
  intros Ho. revert st w st' evs w'.
  induction fuel as [|fuel IH]; intros st w st' evs w' Hr H; [discriminate|].
  simpl in H. apply bind_inv in H.
  destruct H as ([c st1] & e1 & w1 & e2 & Hpass & Hrest & ->).
  destruct (pump_pass_received input inlen outlen OK _ _ _ _ _ _ _ Ho Hr Hpass)
    as (Hm & Hc & Hle).
  rewrite received_app, length_app, Nat2Z.inj_add.
  destruct c.
  - destruct Hc as [Hc|[_ Hc]]; [|discriminate].
    assert (Hr1 : 0 <= readlen st1 <= outlen) by lia.
    destruct (IH _ _ _ _ _ Hr1 Hrest) as (Hm' & Hc' & Hle').
    split; [|split; [|lia]].
    + intros i. rewrite Hm', Hc, <- store_app. apply store_ext, Hm.
    + destruct Hc' as [Hc'|Hc']; [left; lia|right; exact Hc'].
  - injection Hrest as <- <- <-. simpl. rewrite app_nil_r, Z.add_0_r.
    split; [exact Hm|]. split; [|exact Hle].
    destruct Hc as [Hc|[Hc _]]; auto.
Qed.

End LoopData.

Section PassWrites.

Context {W : Type} {K : Kernel W}.

Variables (input : mem) (inlen outlen : Z).


End PassWrites.

Section LoopWrites.

Context {W : Type} {K : Kernel W}.

Variables (input : mem) (inlen outlen : Z).


End LoopWrites.


Lemma received_no_read (l : list event) :
  (forall e, In e l -> is_read e = false) -> received l = [].
Proof.
  induction l as [|e l IH]; intros H; [reflexivity|].
  assert (He : is_read e = false) by (apply H; left; reflexivity).
  destruct e; try discriminate He; simpl; apply IH; intros e' He';
    apply H; right; exact He'.
Qed.

(** ** How a call returns *)

Section Inversion.

Context {W : Type} {K : Kernel W}.

Variables (cmd : string) (argv : option (list string)).

Variables (input : mem) (inlen outlen : Z).

(** The ways in which [popen2] returns to its caller. *)
Lemma popen2_returned fuel out w r out' log w' :
  popen2 cmd argv input inlen outlen fuel out w
  = Some (Returned r out', log, w') ->
  (r = -1 /\ out' = out /\
   (log = [EvPipe None; EvMsg "Failed to create pipe."] \/
    (exists p1, log = [EvPipe (Some p1); EvPipe None;
                       EvMsg "Failed to create pipe."]) \/
    (exists p1 p2 pid,
        pid < 0 /\
        log = [EvPipe (Some p1); EvPipe (Some p2); EvFork pid;
               EvMsg "Fork error."])))
  \/
  (exists pid stdin_r stdin_w stdout_r stdout_w w3 st evs w4 p status msgs,
      0 < pid /\
      pump input inlen outlen fuel stdout_r (pump_init stdin_w out) w3
      = Some (st, evs, w4) /\
      log = spawn_log pid stdin_r stdin_w stdout_r stdout_w ++ evs
              ++ cleanup_log stdout_r st ++ EvWaitpid pid p status :: msgs /\
      out' = output st /\
      (forall e, In e msgs -> is_msg e = true) /\
      (r, msgs) =
        if negb (p =? pid) then (-1, [EvMsg "waitpid error."])
        else if WIFEXITED status then
          if negb (WEXITSTATUS status =? 0) then
            (CInt.neg (WEXITSTATUS status), [EvMsg "child exited with status"])
          else if negb (writelen st =? inlen) then
            (-1, [EvMsg "Incomplete write."])
          else (readlen st, [])
        else (-1, [EvMsg "child process did not exit"])).
Proof.
  intros H. unfold popen2 in H.
  apply bind_inv in H. destruct H as (p1 & e1 & w1 & e2 & H1 & H & ->).
  unfold pipe in H1. destruct (k_pipe w) as [r1 w1'] eqn:Ep1.
  injection H1 as <- <- <-.
  destruct r1 as [[stdin_r stdin_w]|].
  2:{ left. unfold bind, syserror, emit, ret in H. injection H as <- <- <- <-.
      repeat split. left. reflexivity. }
  apply bind_inv in H. destruct H as (p2 & e3 & w2 & e4 & H2 & H & ->).
  unfold pipe in H2. destruct (k_pipe w1') as [r2 w2'] eqn:Ep2.
  injection H2 as <- <- <-.
  destruct r2 as [[stdout_r stdout_w]|].
  2:{ left. unfold bind, syserror, emit, ret in H. injection H as <- <- <- <-.
      repeat split. right. left. eexists. reflexivity. }
  apply bind_inv in H. destruct H as (pid & e5 & w3 & e6 & H3 & H & ->).
  unfold fork in H3. destruct (k_fork w2') as [pid' w3'] eqn:Ef.
  injection H3 as <- <- <-.
  destruct (pid' <? 0) eqn:Eneg.
  { left. unfold bind, syserror, emit, ret in H. injection H as <- <- <- <-.
    apply Z.ltb_lt in Eneg.
    repeat split. right. right. do 3 eexists. split; [exact Eneg|reflexivity]. }
  destruct (pid' =? 0) eqn:Ez.
  { exfalso. unfold child in H. open_run H. }
  right. apply Z.ltb_ge in Eneg. apply Z.eqb_neq in Ez.
  unfold parent in H.
  apply bind_inv in H. destruct H as ([] & e7 & w4 & e8 & H4 & H & ->).
  injection H4 as <- <-.
  apply bind_inv in H. destruct H as ([] & e9 & w5 & e10 & H5 & H & ->).
  injection H5 as <- <-.
  apply bind_inv in H. destruct H as (st & evs & w6 & e11 & Hpump & Hreap & ->).
  destruct (reap_inv inlen _ _ _ _ _ _ _ Hreap)
    as (p & status & msgs & r' & Hwait & -> & Hmsgs & Hres).
  destruct (reap_run inlen _ _ _ _ _ _ _ Hwait) as (r2 & msgs2 & Hrun & Hval).
  rewrite Hrun in Hreap. injection Hreap as <- <- Hm.
  apply app_inv_head in Hm. injection Hm as <-.
  exists pid', stdin_r, stdin_w, stdout_r, stdout_w.
  eexists. exists st, evs, w6. exists p, status, msgs2.
  split; [lia|]. split; [exact Hpump|]. split; [reflexivity|].
  split; [reflexivity|]. split; [exact Hmsgs|exact Hval].
Qed.

End Inversion.

(** ** Messages and the read cursor *)

Section Messages.

Context {W : Type} {K : Kernel W}.

Variables (input : mem) (inlen outlen : Z).

Lemma pump_pass_msgs (OK : KernelOK K) stdout_r st w c st' evs w' :
  0 <= outlen <= CInt.INT_MAX ->
  0 <= readlen st <= outlen ->
  pump_pass input inlen outlen stdout_r st w = Some (c, st', evs, w') ->
  existsb is_error_msg evs = (readlen st' =? -1) /\
  (readlen st < outlen ->
   existsb is_overflow_msg evs = (readlen st' =? outlen)) /\
  (c = Continue -> existsb is_msg evs = false).
Proof.
  intros Ho Hr H. unfold pump_pass, write_leg, read_leg in H.
  pose proof (read_request outlen (readlen st) Ho Hr) as Hreq.
  open_run H.
  all: try match goal with
    | E : k_read _ _ _ = Some (Some ?l, _) |- _ =>
        simpl in E; rewrite Hreq in E;
        pose proof (read_le K OK _ _ _ _ _ E) as Hle;
        destruct (read_advance outlen (readlen st) l Ho Hr Hle) as [Hn Ha]
    end.
  all: simpl in *; rewrite ?of_ssize_t_failure in *.
  all: try rewrite Hn in *; try rewrite Ha in *.
  all: bool_to_Z.
  all: split; [first [reflexivity
                     | symmetry; apply Z.eqb_eq; reflexivity
                     | symmetry; apply Z.eqb_neq; lia]|].
  all: split; [|intros; first [reflexivity | discriminate]].
  all: intros Hlt;
    first [reflexivity
          | symmetry; apply Z.eqb_eq; lia
          | symmetry; apply Z.eqb_neq; lia
          | destruct outlen; [reflexivity|reflexivity|lia]].
Qed.

Lemma pump_msgs (OK : KernelOK K) fuel stdout_r st w st' evs w' :
  0 <= outlen <= CInt.INT_MAX ->
  0 <= readlen st <= outlen ->
  pump input inlen outlen fuel stdout_r st w = Some (st', evs, w') ->
  existsb is_error_msg evs = (readlen st' =? -1) /\
  (readlen st < outlen ->
   existsb is_overflow_msg evs = (readlen st' =? outlen)).
Proof.
  intros Ho. revert st w st' evs w'.
  induction fuel as [|fuel IH]; intros st w st' evs w' Hr H; [discriminate|].
  simpl in H. apply bind_inv in H.
  destruct H as ([c st1] & e1 & w1 & e2 & Hpass & Hrest & ->).
  destruct (pump_pass_msgs OK _ _ _ _ _ _ _ Ho Hr Hpass) as (He & Hov & Hc).
  destruct (pump_pass_read input inlen outlen OK _ _ _ _ _ _ _ Ho Hr Hpass)
    as (Hb & Hcont & _).
  rewrite !existsb_app.
  destruct c.
  - destruct (Hcont eq_refl) as [Hc1 Hc2].
    assert (Hr1 : 0 <= readlen st1 <= outlen) by lia.
    destruct (IH st1 w1 st' e2 w' Hr1 Hrest) as (He' & Hov').
    assert (E1 : existsb is_error_msg e1 = false).
    { rewrite He. apply Z.eqb_neq. lia. }
    rewrite E1. split; [exact He'|].
    intros Hlt. rewrite (Hov Hlt).
    replace (readlen st1 =? outlen) with false
      by (symmetry; apply Z.eqb_neq; specialize (Hc2 Hlt); lia).
    apply Hov', Hc2, Hlt.
  - injection Hrest as <- <- <-. simpl. rewrite !orb_false_r.
    split; assumption.
Qed.

End Messages.

Lemma store_nil (m : mem) (a i : Z) : store m a [] i = m i.
Proof. apply store_outside. simpl. lia. Qed.

Lemma msgs_not_read (l : list event) :
  (forall e, In e l -> is_msg e = true) ->
  forall e, In e l -> is_read e = false.
Proof. intros H e He. specialize (H e He). destruct e; auto; discriminate. Qed.

Lemma msgs_not_write (l : list event) :
  (forall e, In e l -> is_msg e = true) ->
  forall e, In e l -> is_write e = false.
Proof. intros H e He. specialize (H e He). destruct e; auto; discriminate. Qed.

(** The reads and writes of the log of a parent run are those of the
    loop. *)
Lemma received_parent pid stdin_r stdin_w stdout_r stdout_w evs st p status msgs :
  (forall e, In e msgs -> is_msg e = true) ->
  received (spawn_log pid stdin_r stdin_w stdout_r stdout_w ++ evs
              ++ cleanup_log stdout_r st ++ EvWaitpid pid p status :: msgs)
  = received evs.
Proof.
  intros Hm. rewrite !received_app. simpl.
  rewrite (received_no_read msgs (msgs_not_read msgs Hm)).
  unfold cleanup_log. destruct (0 <=? stdin_fd1 st); simpl;
    rewrite app_nil_r; reflexivity.
Qed.


(** X1.  What a call that returns leaves in the output buffer: the
    caller's buffer with the bytes that the reads returned stored from
    offset 0 on, in the order of the reads, and nothing else changed.
    These bytes are never more than [outlen], and a non-negative result
    is their number.  A call that fails before the loop has read
    nothing and leaves the buffer as it was.  For any kernel that keeps
    [KernelOK] and a capacity that is a non-negative [int]. *)
Theorem output_buffer_holds_what_was_read
        {W : Type} {K : Kernel W} (OK : KernelOK K)
        (cmd : string) (argv : option (list string))
        (input : mem) (inlen outlen : Z) (fuel : nat) (out : mem) (w : W)
        (r : Z) (out' : mem) (log : list event) (w' : W) :
  0 <= outlen <= CInt.INT_MAX ->
  popen2 cmd argv input inlen outlen fuel out w
  = Some (Returned r out', log, w') ->
  (forall i, out' i = store out 0 (received log) i) /\
  Z.of_nat (length (received log)) <= outlen /\
  (0 <= r -> r = Z.of_nat (length (received log))).
Proof.
  intros Ho H.
  destruct (popen2_returned cmd argv input inlen outlen fuel out w r out' log w' H)
    as [(-> & -> & Hlog)
       |(pid & stdin_r & stdin_w & stdout_r & stdout_w & w3 & st & evs & w4
         & p & status & msgs & Hpid & Hpump & -> & -> & Hmsgs & Hval)].
  - assert (Hrec : received log = []).
    { destruct Hlog as [->|[(p1 & ->)|(p1 & p2 & pid & _ & ->)]]; reflexivity. }
    rewrite Hrec. split; [intros i; symmetry; apply store_nil|].
    split; [simpl; lia|lia].
  - rewrite (received_parent _ _ _ _ _ _ _ _ _ _ Hmsgs).
    assert (H0 : 0 <= readlen (pump_init stdin_w out) <= outlen)
      by (simpl; lia).
    destruct (pump_received input inlen outlen OK _ _ _ _ _ _ _ Ho H0 Hpump)
      as (Hm & Hc & Hle).
    simpl in Hm, Hc, Hle.
    split; [exact Hm|]. split; [exact Hle|].
    intros Hr.
    pose proof (WEXITSTATUS_range status) as Hrange.
    pose proof (neg_exit_status status) as Hneg.
    destruct (negb (p =? pid)); [injection Hval as -> _; lia|].
    destruct (WIFEXITED status); [|injection Hval as -> _; lia].
    destruct (negb (WEXITSTATUS status =? 0)) eqn:E;
      [injection Hval as -> _;
       apply negb_true_iff, Z.eqb_neq in E; lia|].
    destruct (negb (writelen st =? inlen)); injection Hval as -> _; lia.
Qed.

Lemma output_buffer_holds_what_was_read_witness :
  let input := mem_of_list [x61; x62; x63] in
  let out : mem := fun _ => x00 in
  let w := Script.parent_world
             [PollRet 1 0 POLLOUT; PollRet 1 0 POLLOUT; PollRet 1 POLLIN 0;
              PollRet 1 POLLHUP 0]
             [2; 1] [Some [x61; x62; x63]] (Some (100, 0)) in
  0 <= 8 <= CInt.INT_MAX /\
  exists out' log w',
    popen2 "cat" None input 3 8 4 out w = Some (Returned 3 out', log, w') /\
    received log = [x61; x62; x63] /\
    (forall i, out' i = store out 0 (received log) i) /\
    Z.of_nat (length (received log)) <= 8 /\
    (0 <= 3 -> 3 = Z.of_nat (length (received log))).
Proof.
  intros input out w.
  assert (Ho : 0 <= 8 <= CInt.INT_MAX) by (unfold CInt.INT_MAX; lia).
  split; [exact Ho|].
  eassert (Hrun : popen2 "cat" None input 3 8 4 out w
                  = Some (Returned 3 _, _, _)) by (vm_compute; reflexivity).
  do 3 eexists. split; [exact Hrun|]. split; [reflexivity|].
  exact (output_buffer_holds_what_was_read script_kernel_ok "cat" None
           input 3 8 4 out w 3 _ _ _ Ho Hrun).
Defined.

(** X2.  A call returns a negative result exactly when it has printed
    an [error] or [syserror] message other than "Output too long.":
    every failure is reported, and every message but that one comes
    with a negative result.  For any kernel that keeps [KernelOK] and a
    capacity that is a non-negative [int]. *)
Theorem negative_result_iff_error_message
        {W : Type} {K : Kernel W} (OK : KernelOK K)
        (cmd : string) (argv : option (list string))
        (input : mem) (inlen outlen : Z) (fuel : nat) (out : mem) (w : W)
        (r : Z) (out' : mem) (log : list event) (w' : W) :
  0 <= outlen <= CInt.INT_MAX ->
  popen2 cmd argv input inlen outlen fuel out w
  = Some (Returned r out', log, w') ->
  (r <? 0) = existsb is_error_msg log.
Proof.
  intros Ho H.
  destruct (popen2_returned cmd argv input inlen outlen fuel out w r out' log w' H)
    as [(-> & -> & Hlog)
       |(pid & stdin_r & stdin_w & stdout_r & stdout_w & w3 & st & evs & w4
         & p & status & msgs & Hpid & Hpump & -> & -> & Hmsgs & Hval)].
  - destruct Hlog as [->|[(p1 & ->)|(p1 & p2 & pid & _ & ->)]]; reflexivity.
  - assert (H0 : 0 <= readlen (pump_init stdin_w out) <= outlen)
      by (simpl; lia).
    destruct (pump_msgs input inlen outlen OK _ _ _ _ _ _ _ Ho H0 Hpump)
      as (He & _).
    destruct (pump_received input inlen outlen OK _ _ _ _ _ _ _ Ho H0 Hpump)
      as (_ & Hc & _).
    simpl in Hc.
    unfold spawn_log. simpl. rewrite !existsb_app, He.
    assert (Hcl : existsb is_error_msg (cleanup_log stdout_r st) = false)
      by (unfold cleanup_log; destruct (0 <=? stdin_fd1 st); reflexivity).
    rewrite Hcl. simpl.
    pose proof (WEXITSTATUS_range status) as Hrange.
    pose proof (neg_exit_status status) as Hneg.
    destruct (negb (p =? pid));
      [injection Hval as -> ->; simpl; rewrite orb_true_r; reflexivity|].
    destruct (WIFEXITED status);
      [|injection Hval as -> ->; simpl; rewrite orb_true_r; reflexivity].
    destruct (negb (WEXITSTATUS status =? 0)) eqn:E.
    { injection Hval as -> ->. simpl. rewrite orb_true_r.
      apply negb_true_iff, Z.eqb_neq in E. apply Z.ltb_lt. lia. }
    destruct (negb (writelen st =? inlen));
      [injection Hval as -> ->; simpl; rewrite orb_true_r; reflexivity|].
    injection Hval as -> ->. simpl. rewrite orb_false_r.
    destruct Hc as [Hc|Hc]; rewrite Hc.
    + transitivity false; [apply Z.ltb_ge; lia|symmetry; apply Z.eqb_neq; lia].
    + reflexivity.
Qed.

Lemma negative_result_iff_error_message_witness :
  let input := mem_of_list [x61; x62; x63] in
  let out : mem := fun _ => x00 in
  let w := Script.parent_world [PollRet 1 0 POLLOUT; PollRet 1 POLLHUP POLLERR]
                               [2] [] (Some (100, 0)) in
  0 <= 8 <= CInt.INT_MAX /\
  exists out' log w',
    popen2 "head" None input 3 8 2 out w = Some (Returned (-1) out', log, w') /\
    In (EvMsg "Unknown poll event on stdout.") log /\
    (-1 <? 0) = existsb is_error_msg log.
Proof.
  intros input out w.
  assert (Ho : 0 <= 8 <= CInt.INT_MAX) by (unfold CInt.INT_MAX; lia).
  split; [exact Ho|].
  eassert (Hrun : popen2 "head" None input 3 8 2 out w
                  = Some (Returned (-1) _, _, _)) by (vm_compute; reflexivity).
  do 3 eexists. split; [exact Hrun|]. split; [simpl; auto 20|].
  exact (negative_result_iff_error_message script_kernel_ok "head" None
           input 3 8 2 out w (-1) _ _ _ Ho Hrun).
Defined.

(** X3.  With a positive capacity, a call with a non-negative result
    has printed "Output too long." exactly when the result is the
    capacity [outlen]: a result below the capacity was never cut short,
    and a buffer that is filled to the last byte is always taken for an
    overflow, also when the child printed just [outlen] bytes. *)
Theorem full_buffer_iff_overflow_message
        {W : Type} {K : Kernel W} (OK : KernelOK K)
        (cmd : string) (argv : option (list string))
        (input : mem) (inlen outlen : Z) (fuel : nat) (out : mem) (w : W)
        (r : Z) (out' : mem) (log : list event) (w' : W) :
  0 < outlen <= CInt.INT_MAX ->
  popen2 cmd argv input inlen outlen fuel out w
  = Some (Returned r out', log, w') ->
  0 <= r ->
  existsb is_overflow_msg log = (r =? outlen).
Proof.
  intros Ho H Hr.
  destruct (popen2_returned cmd argv input inlen outlen fuel out w r out' log w' H)
    as [(-> & -> & Hlog)
       |(pid & stdin_r & stdin_w & stdout_r & stdout_w & w3 & st & evs & w4
         & p & status & msgs & Hpid & Hpump & -> & -> & Hmsgs & Hval)];
    [lia|].
  assert (Ho' : 0 <= outlen <= CInt.INT_MAX) by lia.
  assert (H0 : 0 <= readlen (pump_init stdin_w out) <= outlen)
    by (simpl; lia).
  destruct (pump_msgs input inlen outlen OK _ _ _ _ _ _ _ Ho' H0 Hpump)
    as (_ & Hov).
  simpl in Hov. specialize (Hov (proj1 Ho)).
  unfold spawn_log. simpl. rewrite !existsb_app, Hov.
  assert (Hcl : existsb is_overflow_msg (cleanup_log stdout_r st) = false)
    by (unfold cleanup_log; destruct (0 <=? stdin_fd1 st); reflexivity).
  rewrite Hcl. simpl.
  pose proof (WEXITSTATUS_range status) as Hrange.
  pose proof (neg_exit_status status) as Hneg.
  destruct (negb (p =? pid)); [injection Hval as -> _; lia|].
  destruct (WIFEXITED status); [|injection Hval as -> _; lia].
  destruct (negb (WEXITSTATUS status =? 0)) eqn:E;
    [injection Hval as -> _; apply negb_true_iff, Z.eqb_neq in E; lia|].
  destruct (negb (writelen st =? inlen)); [injection Hval as -> _; lia|].
  injection Hval as -> ->. simpl. rewrite orb_false_r. reflexivity.
Qed.

Lemma full_buffer_iff_overflow_message_witness :
  let input : mem := fun _ => x00 in
  let out : mem := fun _ => x00 in
  let w := Script.parent_world [PollRet 2 POLLIN POLLOUT] []
                               [Some [x68; x65; x6c; x6c; x6f; x21]]
                               (Some (100, 0)) in
  0 < 4 <= CInt.INT_MAX /\
  exists out' log w',
    popen2 "printf" None input 0 4 1 out w = Some (Returned 4 out', log, w') /\
    existsb is_overflow_msg log = (4 =? 4).
Proof.
  intros input out w.
  assert (Ho : 0 < 4 <= CInt.INT_MAX) by (unfold CInt.INT_MAX; lia).
  split; [exact Ho|].
  eassert (Hrun : popen2 "printf" None input 0 4 1 out w
                  = Some (Returned 4 _, _, _)) by (vm_compute; reflexivity).
  assert (Hr : 0 <= 4) by lia.
  do 3 eexists. split; [exact Hrun|].
  exact (full_buffer_iff_overflow_message script_kernel_ok "printf" None
           input 0 4 1 out w 4 _ _ _ Ho Hrun Hr).
Defined.



(** X5.  A non-negative result is only returned for a child that was
    created and reaped: the log of the call ends with the waitpid on
    the pid that fork returned, which answered that pid and a status
    of a normal exit with exit status 0; nothing is printed after it.
    For any kernel. *)
Theorem nonnegative_result_means_success
        {W : Type} {K : Kernel W}
        (cmd : string) (argv : option (list string))
        (input : mem) (inlen outlen : Z) (fuel : nat) (out : mem) (w : W)
        (r : Z) (out' : mem) (log : list event) (w' : W) :
  popen2 cmd argv input inlen outlen fuel out w
  = Some (Returned r out', log, w') ->
  0 <= r ->
  exists pid status before,
    log = before ++ [EvWaitpid pid pid status] /\
    In (EvFork pid) before /\ 0 < pid /\
    WIFEXITED status = true /\ WEXITSTATUS status = 0.
Proof.
  intros H Hr.
  destruct (popen2_returned cmd argv input inlen outlen fuel out w r out' log w' H)
    as [(-> & -> & Hlog)
       |(pid & stdin_r & stdin_w & stdout_r & stdout_w & w3 & st & evs & w4
         & p & status & msgs & Hpid & Hpump & -> & -> & Hmsgs & Hval)];
    [lia|].
  pose proof (WEXITSTATUS_range status) as Hrange.
  pose proof (neg_exit_status status) as Hneg.
  destruct (p =? pid) eqn:Ep; [|injection Hval as -> _; lia].
  apply Z.eqb_eq in Ep. subst p. simpl in Hval.
  destruct (WIFEXITED status) eqn:Ex; [|injection Hval as -> _; lia].
  destruct (WEXITSTATUS status =? 0) eqn:E;
    [|injection Hval as -> _; apply Z.eqb_neq in E; lia].
  apply Z.eqb_eq in E. simpl in Hval.
  destruct (negb (writelen st =? inlen)); [injection Hval as -> _; lia|].
  injection Hval as -> ->.
  exists pid, status,
    (spawn_log pid stdin_r stdin_w stdout_r stdout_w ++ evs
       ++ cleanup_log stdout_r st).
  split; [rewrite <- !app_assoc; reflexivity|].
  split; [apply in_app_iff; left; simpl; auto|].
  auto.
Qed.

Lemma nonnegative_result_means_success_witness :
  let input := mem_of_list [x61; x62; x63] in
  let out : mem := fun _ => x00 in
  let w := Script.parent_world
             [PollRet 1 0 POLLOUT; PollRet 1 POLLIN 0; PollRet 1 POLLHUP 0]
             [3] [Some [x61; x62; x63]] (Some (100, 0)) in
  exists out' log w',
    popen2 "cat" None input 3 8 3 out w = Some (Returned 3 out', log, w') /\
    0 <= 3 /\
    exists pid status before,
      log = before ++ [EvWaitpid pid pid status] /\
      In (EvFork pid) before /\ 0 < pid /\
      WIFEXITED status = true /\ WEXITSTATUS status = 0.
Proof.
  intros input out w.
  eassert (Hrun : popen2 "cat" None input 3 8 3 out w
                  = Some (Returned 3 _, _, _)) by (vm_compute; reflexivity).
  assert (Hr : 0 <= 3) by lia.
  do 3 eexists. split; [exact Hrun|]. split; [exact Hr|].
  exact (nonnegative_result_means_success "cat" None input 3 8 3 out w 3 _ _ _
           Hrun Hr).
Defined.

(** X6.  When waitpid does not answer the pid of the child, and when it
    answers a status that is not a normal exit (the child was killed by
    a signal), [popen2] returns -1 after the message of that branch,
    whatever was read and written in the loop.  For any kernel and any
    way out of the loop. *)
Theorem abnormal_termination_returns_failure
        {W : Type} {K : Kernel W}
        (cmd : string) (argv : option (list string))
        (input : mem) (inlen outlen : Z) (fuel : nat) (out : mem) (w : W)
        (pid stdin_r stdin_w stdout_r stdout_w : Z)
        (st : pstate) (evs : list event) (w4 : W) (p status : Z) (w5 : W) :
  leaves_loop input inlen outlen fuel out w pid stdin_r stdin_w stdout_r
              stdout_w st evs w4 ->
  k_waitpid pid (world_at_wait stdout_r st w4) = Some (p, status, w5) ->
  p <> pid \/ WIFEXITED status = false ->
  popen2 cmd argv input inlen outlen fuel out w =
  Some (Returned (-1) (output st),
        spawn_log pid stdin_r stdin_w stdout_r stdout_w ++ evs
          ++ cleanup_log stdout_r st
          ++ [EvWaitpid pid p status;
              EvMsg (if p =? pid then "child process did not exit"
                     else "waitpid error.")],
        w5).
Proof.
  intros Hloop Hwait Hab.
  rewrite (popen2_leaves_loop cmd argv _ _ _ _ _ _ _ _ _ _ _ _ _ _ Hloop).
  destruct (reap_run inlen _ _ _ _ _ _ _ Hwait) as (r & msgs & -> & Hr).
  destruct (p =? pid) eqn:Ep; simpl in Hr.
  - destruct Hab as [Hab|Hab]; [apply Z.eqb_eq in Ep; contradiction|].
    rewrite Hab in Hr. injection Hr as -> ->. reflexivity.
  - injection Hr as -> ->. reflexivity.
Qed.

Lemma abnormal_termination_returns_failure_witness :
  let input : mem := fun _ => x00 in
  let out : mem := fun _ => x00 in
  let w := Script.parent_world [PollRet 1 POLLHUP POLLOUT] [] []
                               (Some (100, 9)) in
  exists st evs w4 log,
    leaves_loop input 0 8 1 out w 100 3 4 5 6 st evs w4 /\
    WIFEXITED 9 = false /\
    popen2 "sleep" None input 0 8 1 out w
    = Some (Returned (-1) (output st),
            log ++ [EvWaitpid 100 100 9; EvMsg "child process did not exit"],
            w4).
Proof.
  intros input out w.
  eassert (Hloop : leaves_loop input 0 8 1 out w 100 3 4 5 6 _ _ _)
    by script_leaves_loop.
  assert (Hab : 100 <> 100 \/ WIFEXITED 9 = false) by (right; reflexivity).
  do 4 eexists. split; [exact Hloop|]. split; [reflexivity|].
  rewrite (abnormal_termination_returns_failure "sleep" None input 0 8 1 out w
             100 3 4 5 6 _ _ _ 100 9 _ Hloop eq_refl Hab).
  rewrite !app_assoc. reflexivity.
Defined.

(** ** Descriptors *)

Lemma watch_app (stdout_r fd1 : Z) (a b : list event) :
  watch stdout_r fd1 (a ++ b) =
  match watch stdout_r fd1 a with
  | Some f => watch stdout_r f b
  | None => None
  end.
Proof.
  revert fd1. induction a as [|e a IH]; intros fd1; [reflexivity|].
  destruct e; simpl; auto;
    match goal with |- context [if ?b then _ else _] => destruct b end; auto.
Qed.

Section Descriptors.

Context {W : Type} {K : Kernel W}.

Variables (input : mem) (inlen outlen : Z).

Lemma pump_pass_watch (OK : KernelOK K) stdout_r st w c st' evs w' :
  fds1_fd st = stdin_fd1 st ->
  pump_pass input inlen outlen stdout_r st w = Some (c, st', evs, w') ->
  watch stdout_r (stdin_fd1 st) evs = Some (stdin_fd1 st').
Proof.
  intros Hfd H. unfold pump_pass, write_leg, read_leg in H.
  open_run H.
  all: match goal with E : k_poll _ _ _ = Some (?r, _) |- _ =>
         assert (Hneg : stdin_fd1 st < 0 -> has_flag (revents1 r) POLLOUT = false)
           by (intros Hlt;
               rewrite (poll_ignores_negative K OK _ _ _ _ _ E) by lia;
               reflexivity)
       end.
  all: simpl; rewrite Hfd, !Z.eqb_refl; simpl.
  all: try reflexivity.
  all: destruct (0 <=? stdin_fd1 st) eqn:E0;
    [|apply Z.leb_gt in E0; rewrite (Hneg E0) in *; discriminate].
  all: simpl; rewrite ?Z.eqb_refl; reflexivity.
Qed.

Lemma pump_watch (OK : KernelOK K) fuel stdout_r st w st' evs w' :
  fds1_fd st = stdin_fd1 st ->
  pump input inlen outlen fuel stdout_r st w = Some (st', evs, w') ->
  watch stdout_r (stdin_fd1 st) evs = Some (stdin_fd1 st').
Proof.
  revert st w st' evs w'.
  induction fuel as [|fuel IH]; intros st w st' evs w' Hfd H; [discriminate|].
  simpl in H. apply bind_inv in H.
  destruct H as ([c st1] & e1 & w1 & e2 & Hpass & Hrest & ->).
  rewrite watch_app, (pump_pass_watch OK _ _ _ _ _ _ _ Hfd Hpass).
  destruct (pump_pass_close input inlen outlen OK _ _ _ _ _ _ _ Hfd Hpass)
    as (Hfd1 & _).
  destruct c.
  - apply (IH st1 w1 st' e2 w' Hfd1 Hrest).
  - injection Hrest as <- <- <-. reflexivity.
Qed.

End Descriptors.

(** ** Inputs of length zero or less *)

Section NoWrite.

Context {W : Type} {K : Kernel W}.

Variables (input : mem) (inlen outlen : Z).

Lemma pump_pass_no_write stdout_r st w c st' evs w' :
  inlen <= writelen st ->
  pump_pass input inlen outlen stdout_r st w = Some (c, st', evs, w') ->
  writelen st' = writelen st /\ existsb is_write evs = false.
Proof.
  intros Hw H. unfold pump_pass, write_leg, read_leg in H.
  open_run H.
  all: bool_to_Z; try lia.
  all: split; reflexivity.
Qed.

Lemma pump_no_write fuel stdout_r st w st' evs w' :
  inlen <= writelen st ->
  pump input inlen outlen fuel stdout_r st w = Some (st', evs, w') ->
  writelen st' = writelen st /\ existsb is_write evs = false.
Proof.
  revert st w st' evs w'.
  induction fuel as [|fuel IH]; intros st w st' evs w' Hw H; [discriminate|].
  simpl in H. apply bind_inv in H.
  destruct H as ([c st1] & e1 & w1 & e2 & Hpass & Hrest & ->).
  destruct (pump_pass_no_write _ _ _ _ _ _ _ Hw Hpass) as (Hw1 & He1).
  rewrite existsb_app, He1.
  destruct c.
  - destruct (IH st1 w1 st' e2 w') as (Hw2 & He2); [lia|exact Hrest|].
    split; [lia|exact He2].
  - injection Hrest as <- <- <-. split; [exact Hw1|reflexivity].
Qed.

End NoWrite.

(** X7.  With an input length that is zero or negative [popen2] makes
    no write at all; with a negative one every call that returns
    returns a negative result (the write cursor stays at 0 and never
    equals [inlen]).  For any kernel. *)
Theorem nothing_is_written_for_an_empty_input
        {W : Type} {K : Kernel W}
        (cmd : string) (argv : option (list string))
        (input : mem) (inlen outlen : Z) (fuel : nat) (out : mem) (w : W)
        (r : Z) (out' : mem) (log : list event) (w' : W) :
  inlen <= 0 ->
  popen2 cmd argv input inlen outlen fuel out w
  = Some (Returned r out', log, w') ->
  existsb is_write log = false /\ (inlen < 0 -> r < 0).
Proof.
  intros Hi H.
  destruct (popen2_returned cmd argv input inlen outlen fuel out w r out' log w' H)
    as [(-> & -> & Hlog)
       |(pid & stdin_r & stdin_w & stdout_r & stdout_w & w3 & st & evs & w4
         & p & status & msgs & Hpid & Hpump & -> & -> & Hmsgs & Hval)].
  - split; [|lia].
    destruct Hlog as [->|[(p1 & ->)|(p1 & p2 & pid & _ & ->)]]; reflexivity.
  - assert (H0 : inlen <= writelen (pump_init stdin_w out)) by (simpl; lia).
    destruct (pump_no_write input inlen outlen _ _ _ _ _ _ _ H0 Hpump)
      as (Hw & He).
    simpl in Hw. split.
    + unfold spawn_log. simpl. rewrite !existsb_app, He. simpl.
      assert (Hcl : existsb is_write (cleanup_log stdout_r st) = false)
        by (unfold cleanup_log; destruct (0 <=? stdin_fd1 st); reflexivity).
      rewrite Hcl. simpl.
      destruct (existsb is_write msgs) eqn:Em; [|reflexivity].
      apply existsb_exists in Em. destruct Em as (e & He1 & He2).
      rewrite (msgs_not_write msgs Hmsgs e He1) in He2. discriminate.
    + intros Hneg.
      pose proof (WEXITSTATUS_range status) as Hrange.
      pose proof (neg_exit_status status) as Hn.
      destruct (negb (p =? pid)); [injection Hval as -> _; lia|].
      destruct (WIFEXITED status); [|injection Hval as -> _; lia].
      destruct (negb (WEXITSTATUS status =? 0)) eqn:E;
        [injection Hval as -> _; apply negb_true_iff, Z.eqb_neq in E; lia|].
      destruct (writelen st =? inlen) eqn:Ew; [apply Z.eqb_eq in Ew; lia|].
      simpl in Hval. injection Hval as -> _. lia.
Qed.

Lemma nothing_is_written_for_an_empty_input_witness :
  let input : mem := fun _ => x00 in
  let out : mem := fun _ => x00 in
  let w := Script.parent_world [PollRet 1 0 POLLOUT; PollRet 1 POLLHUP POLLOUT]
                               [5] [] (Some (100, 0)) in
  -1 <= 0 /\
  exists out' log w',
    popen2 "true" None input (-1) 8 2 out w
    = Some (Returned (-1) out', log, w') /\
    existsb is_write log = false /\ (-1 < 0 -> -1 < 0).
Proof.
  intros input out w.
  assert (Hi : -1 <= 0) by lia.
  split; [exact Hi|].
  eassert (Hrun : popen2 "true" None input (-1) 8 2 out w
                  = Some (Returned (-1) _, _, _)) by (vm_compute; reflexivity).
  do 3 eexists. split; [exact Hrun|].
  exact (nothing_is_written_for_an_empty_input "true" None input (-1) 8 2 out w
           (-1) _ _ _ Hi Hrun).
Defined.

(** ** The child *)

Lemma popen2_in_child
      {W : Type} {K : Kernel W}
      (cmd : string) (argv : option (list string))
      (input : mem) (inlen outlen : Z) (fuel : nat) (out : mem) (w : W)
      (o : outcome) (log : list event) (w' : W) :
  popen2 cmd argv input inlen outlen fuel out w = Some (o, log, w') ->
  (forall r m, o <> Returned r m) ->
  exists stdin_r stdin_w stdout_r stdout_w,
    (o = ChildExec /\
     log = [EvPipe (Some (stdin_r, stdin_w));
            EvPipe (Some (stdout_r, stdout_w)); EvFork 0;
            EvClose stdin_w; EvDup2 stdin_r STDIN_FILENO;
            EvClose stdout_r; EvDup2 stdout_w STDOUT_FILENO;
            EvExec cmd argv])
    \/
    (o = ChildExit 127 /\
     log = [EvPipe (Some (stdin_r, stdin_w));
            EvPipe (Some (stdout_r, stdout_w)); EvFork 0;
            EvClose stdin_w; EvDup2 stdin_r STDIN_FILENO;
            EvClose stdout_r; EvDup2 stdout_w STDOUT_FILENO;
            EvExec cmd argv; EvMsg "Error running."; EvExit 127]).
Proof.
  intros H Hno. unfold popen2, child, parent in H. open_run H.
  all: try (exfalso; eapply Hno; reflexivity).
  all: try match goal with
         | Hr : reap _ _ _ _ _ = Some _ |- _ =>
             apply reap_inv in Hr;
             destruct Hr as (? & ? & ? & ? & _ & _ & _ & Hx);
             exfalso; eapply Hno; exact Hx
         end.
  all: match goal with E : (?x =? 0) = true |- _ => apply Z.eqb_eq in E; subst x end.
  all: do 4 eexists; first [left; split; reflexivity | right; split; reflexivity].
Qed.

(** X8.  The two processes that leave fork do not run each other's
    code.  A process that returns from [popen2] has logged no dup2, no
    exec and no exit, and fork did not answer 0 to it.  A process that
    does not return is the child: it has logged the two pipes, the fork
    that answered 0, the close of the write end of the stdin pipe, the
    dup2 of its read end onto descriptor 0, the close of the read end
    of the stdout pipe, the dup2 of its write end onto descriptor 1 and
    the exec, in this order, and nothing else when the image was
    replaced; otherwise the message and exit(127).  It has made no
    poll, read, write or waitpid, and it has not closed the two
    descriptors it duplicated.  For any kernel. *)
Theorem child_and_parent_do_not_mix
        {W : Type} {K : Kernel W}
        (cmd : string) (argv : option (list string))
        (input : mem) (inlen outlen : Z) (fuel : nat) (out : mem) (w : W)
        (o : outcome) (log : list event) (w' : W) :
  popen2 cmd argv input inlen outlen fuel out w = Some (o, log, w') ->
  match o with
  | Returned _ _ =>
      existsb is_child_event log = false /\ ~ In (EvFork 0) log
  | _ =>
      exists stdin_r stdin_w stdout_r stdout_w,
        log = [EvPipe (Some (stdin_r, stdin_w));
               EvPipe (Some (stdout_r, stdout_w)); EvFork 0;
               EvClose stdin_w; EvDup2 stdin_r STDIN_FILENO;
               EvClose stdout_r; EvDup2 stdout_w STDOUT_FILENO;
               EvExec cmd argv]
              ++ match o with
                 | ChildExit _ => [EvMsg "Error running."; EvExit 127]
                 | _ => []
                 end /\
        (forall status, o = ChildExit status -> status = 127)
  end.
Proof.
  intros H. destruct o as [r out'| |status].
  - destruct (popen2_returned cmd argv input inlen outlen fuel out w r out' log
                w' H)
      as [(-> & -> & Hlog)
         |(pid & stdin_r & stdin_w & stdout_r & stdout_w & w3 & st & evs & w4
           & p & status & msgs & Hpid & Hpump & -> & -> & Hmsgs & Hval)].
    + destruct Hlog as [->|[(p1 & ->)|(p1 & p2 & pid & Hneg & ->)]];
        (split; [reflexivity|]); simpl; intros Hin;
        repeat (destruct Hin as [Hin|Hin]; [try discriminate Hin|]); auto.
      injection Hin as ->. lia.
    + pose proof (pump_events _ _ _ _ _ _ _ _ _ _ Hpump) as Hev.
      rewrite Forall_forall in Hev.
      assert (Hpe : forall e, In e evs -> is_child_event e = false /\ e <> EvFork 0).
      { intros e He. specialize (Hev e He).
        destruct e; simpl in Hev; try contradiction;
          (split; [reflexivity|discriminate]). }
      assert (Hme : forall e, In e msgs -> is_child_event e = false /\ e <> EvFork 0).
      { intros e He. specialize (Hmsgs e He).
        destruct e; simpl in Hmsgs; try discriminate;
          (split; [reflexivity|discriminate]). }
      assert (Hall : forall e,
                 In e (spawn_log pid stdin_r stdin_w stdout_r stdout_w ++ evs
                         ++ cleanup_log stdout_r st
                         ++ EvWaitpid pid p status :: msgs) ->
                 is_child_event e = false /\ e <> EvFork 0).
      { intros e He. rewrite !in_app_iff in He.
        destruct He as [He|[He|[He|[<-|He]]]]; auto.
        - unfold spawn_log in He. simpl in He.
          repeat (destruct He as [<-|He];
                  [split; [reflexivity|try discriminate]|]);
            try contradiction.
          intros E. injection E as ->. lia.
        - unfold cleanup_log in He. destruct (0 <=? stdin_fd1 st); simpl in He;
            repeat (destruct He as [<-|He]; [split; [reflexivity|discriminate]|]);
            contradiction.
        - split; [reflexivity|discriminate]. }
      split.
      * destruct (existsb is_child_event _) eqn:E; [|reflexivity].
        apply existsb_exists in E. destruct E as (e & He1 & He2).
        rewrite (proj1 (Hall e He1)) in He2. discriminate.
      * intros Hin. apply (proj2 (Hall _ Hin)). reflexivity.
  - destruct (popen2_in_child cmd argv input inlen outlen fuel out w _ log w' H)
      as (a & b & c & d & [(_ & ->)|(Ho & _)]);
      [intros r m; discriminate| |discriminate Ho].
    exists a, b, c, d. split; [reflexivity|]. intros s Hs. discriminate Hs.
  - destruct (popen2_in_child cmd argv input inlen outlen fuel out w _ log w' H)
      as (a & b & c & d & [(Ho & _)|(Ho & ->)]);
      [intros r m; discriminate|discriminate Ho|].
    exists a, b, c, d. split; [reflexivity|]. intros s Hs.
    rewrite Ho in Hs. injection Hs as <-. reflexivity.
Qed.

Lemma child_and_parent_do_not_mix_witness :
  let input : mem := fun _ => x00 in
  let out : mem := fun _ => x00 in
  let w := Script.World [Some (3, 4); Some (5, 6)] 0 true [] [] [] None in
  exists log w',
    popen2 "cat" None input 0 8 1 out w = Some (ChildExec, log, w') /\
    exists stdin_r stdin_w stdout_r stdout_w,
      log = [EvPipe (Some (stdin_r, stdin_w));
             EvPipe (Some (stdout_r, stdout_w)); EvFork 0;
             EvClose stdin_w; EvDup2 stdin_r STDIN_FILENO;
             EvClose stdout_r; EvDup2 stdout_w STDOUT_FILENO;
             EvExec "cat" None] ++ [] /\
      (forall status, ChildExec = ChildExit status -> status = 127).
Proof.
  intros input out w.
  eassert (Hrun : popen2 "cat" None input 0 8 1 out w
                  = Some (ChildExec, _, _)) by (vm_compute; reflexivity).
  do 2 eexists. split; [exact Hrun|].
  exact (child_and_parent_do_not_mix "cat" None input 0 8 1 out w _ _ _ Hrun).
Defined.

(** X9.  In the loop the parent only touches descriptors it holds:
    every poll watches [stdout_r] and the write end of the stdin pipe
    until that end is closed, and -1 in its place from then on; every
    write goes to that write end while it is open, so none follows its
    close; the only close in the loop is the one of that write end; and
    every read is from [stdout_r].  For any kernel that keeps
    [KernelOK] (poll reports nothing on a negative descriptor). *)
Theorem loop_uses_only_open_descriptors
        {W : Type} {K : Kernel W} (OK : KernelOK K)
        (input : mem) (inlen outlen : Z) (fuel : nat) (out : mem) (w : W)
        (pid stdin_r stdin_w stdout_r stdout_w : Z)
        (st : pstate) (evs : list event) (w4 : W) :
  leaves_loop input inlen outlen fuel out w pid stdin_r stdin_w stdout_r
              stdout_w st evs w4 ->
  watch stdout_r stdin_w evs = Some (stdin_fd1 st) /\
  (stdin_fd1 st = stdin_w \/ (stdin_fd1 st = -1 /\ 0 <= stdin_w)).
Proof.
  intros (w1 & w2 & w3 & _ & _ & _ & _ & Hpump).
  assert (Hinit : fds1_fd (pump_init stdin_w out)
                  = stdin_fd1 (pump_init stdin_w out)) by reflexivity.
  split.
  - exact (pump_watch input inlen outlen OK _ _ _ _ _ _ _ Hinit Hpump).
  - destruct (pump_close input inlen outlen OK _ _ _ _ _ _ _ Hinit Hpump)
      as (_ & [(Hsame & _)|(Hopen & Hclosed & _)]); simpl in *; auto.
Qed.

Lemma loop_uses_only_open_descriptors_witness :
  let input := mem_of_list [x61; x62; x63] in
  let out : mem := fun _ => x00 in
  let w := Script.parent_world
             [PollRet 1 0 POLLOUT; PollRet 1 POLLIN 0; PollRet 1 POLLHUP 0]
             [3] [Some [x61; x62; x63]] (Some (100, 0)) in
  exists st evs w4,
    leaves_loop input 3 8 3 out w 100 3 4 5 6 st evs w4 /\
    evs = [EvPoll 5 4 (PollRet 1 0 POLLOUT); EvWrite 4 0 3 3; EvClose 4;
           EvPoll 5 (-1) (PollRet 1 POLLIN 0);
           EvRead 5 0 8 (Some [x61; x62; x63]);
           EvPoll 5 (-1) (PollRet 1 POLLHUP 0)] /\
    watch 5 4 evs = Some (stdin_fd1 st) /\
    (stdin_fd1 st = 4 \/ (stdin_fd1 st = -1 /\ 0 <= 4)).
Proof.
  intros input out w.
  eassert (Hloop : leaves_loop input 3 8 3 out w 100 3 4 5 6 _ _ _)
    by script_leaves_loop.
  do 3 eexists. split; [exact Hloop|]. split; [reflexivity|].
  exact (loop_uses_only_open_descriptors script_kernel_ok input 3 8 3 out w
           100 3 4 5 6 _ _ _ Hloop).
Defined.

(** X10.  In a call that reaches the parent and returns, each of the
    four descriptors of the two pipes is closed exactly once and no
    other descriptor is closed at all, and all this is done before
    waitpid is called; after waitpid only messages are logged.  The
    four descriptors are distinct, the write end of the stdin pipe is
    not negative, and the kernel keeps [KernelOK]. *)
Theorem parent_closes_each_descriptor_once
        {W : Type} {K : Kernel W} (OK : KernelOK K)
        (cmd : string) (argv : option (list string))
        (input : mem) (inlen outlen : Z) (fuel : nat) (out : mem) (w : W)
        (pid stdin_r stdin_w stdout_r stdout_w : Z)
        (st : pstate) (evs : list event) (w4 : W)
        (o : outcome) (log : list event) (w5 : W) :
  leaves_loop input inlen outlen fuel out w pid stdin_r stdin_w stdout_r
              stdout_w st evs w4 ->
  popen2 cmd argv input inlen outlen fuel out w = Some (o, log, w5) ->
  0 <= stdin_w ->
  NoDup [stdin_r; stdin_w; stdout_r; stdout_w] ->
  exists before p status msgs,
    log = before ++ EvWaitpid pid p status :: msgs /\
    (forall e, In e msgs -> is_msg e = true) /\
    forall fd,
      count (is_close fd) before =
      if existsb (Z.eqb fd) [stdin_r; stdin_w; stdout_r; stdout_w]
      then 1%nat else 0%nat.
Proof.
  intros Hloop Hrun Hge Hnd.
  rewrite (popen2_leaves_loop cmd argv _ _ _ _ _ _ _ _ _ _ _ _ _ _ Hloop) in Hrun.
  destruct (reap _ _ _ _ _) as [[[o' e2] w5']|] eqn:Hreap; [|discriminate].
  injection Hrun as <- <- <-.
  destruct (reap_inv inlen _ _ _ _ _ _ _ Hreap)
    as (p & status & msgs & r & Hwait & -> & Hmsgs & ->).
  destruct Hloop as (w1 & w2 & w3 & _ & _ & _ & _ & Hpump).
  assert (Hinit : fds1_fd (pump_init stdin_w out)
                  = stdin_fd1 (pump_init stdin_w out)) by reflexivity.
  destruct (pump_close input inlen outlen OK _ _ _ _ _ _ _ Hinit Hpump)
    as (_ & Hcase).
  exists (spawn_log pid stdin_r stdin_w stdout_r stdout_w ++ evs
            ++ cleanup_log stdout_r st), p, status, msgs.
  split; [rewrite <- !app_assoc; reflexivity|]. split; [exact Hmsgs|].
  assert (D : stdin_r <> stdin_w /\ stdin_r <> stdout_r /\ stdin_r <> stdout_w /\
              stdin_w <> stdout_r /\ stdin_w <> stdout_w /\
              stdout_r <> stdout_w).
  { repeat match goal with
           | N : NoDup (_ :: _) |- _ =>
               apply NoDup_cons_iff in N; destruct N as [? N]
           end.
    simpl in *. repeat split; intros E; subst; tauto. }
  destruct D as (D1 & D2 & D3 & D4 & D5 & D6).
  intros fd. unfold spawn_log, cleanup_log. rewrite !count_app.
  simpl in Hcase. simpl existsb. rewrite !(Z.eqb_sym fd).
  destruct Hcase as [(Hsame & Hnone & _)|(_ & Hclosed & _ & Hone)].
  - rewrite Hnone, Hsame.
    destruct (0 <=? stdin_w) eqn:E; [|apply Z.leb_gt in E; lia].
    unfold count. simpl.
    destruct (stdin_r =? fd) eqn:E1; destruct (stdin_w =? fd) eqn:E2;
      destruct (stdout_r =? fd) eqn:E3; destruct (stdout_w =? fd) eqn:E4;
      try reflexivity;
      repeat match goal with
             | E : (_ =? _) = true |- _ => apply Z.eqb_eq in E
             end; subst; congruence.
  - rewrite Hone, Hclosed. unfold count. simpl.
    destruct (stdin_r =? fd) eqn:E1; destruct (stdin_w =? fd) eqn:E2;
      destruct (stdout_r =? fd) eqn:E3; destruct (stdout_w =? fd) eqn:E4;
      try reflexivity;
      repeat match goal with
             | E : (_ =? _) = true |- _ => apply Z.eqb_eq in E
             end; subst; congruence.
Qed.

Lemma parent_closes_each_descriptor_once_witness :
  let input := mem_of_list [x61; x62; x63] in
  let out : mem := fun _ => x00 in
  let w := Script.parent_world [PollRet 1 POLLHUP 0] [] [] (Some (100, 0)) in
  exists st evs w4 o log w5,
    leaves_loop input 3 8 1 out w 100 3 4 5 6 st evs w4 /\
    popen2 "true" None input 3 8 1 out w = Some (o, log, w5) /\
    0 <= 4 /\ NoDup [3; 4; 5; 6] /\
    exists before p status msgs,
      log = before ++ EvWaitpid 100 p status :: msgs /\
      (forall e, In e msgs -> is_msg e = true) /\
      forall fd,
        count (is_close fd) before =
        if existsb (Z.eqb fd) [3; 4; 5; 6] then 1%nat else 0%nat.
Proof.
  intros input out w.
  eassert (Hloop : leaves_loop input 3 8 1 out w 100 3 4 5 6 _ _ _)
    by script_leaves_loop.
  eassert (Hrun : popen2 "true" None input 3 8 1 out w = Some (_, _, _))
    by (vm_compute; reflexivity).
  assert (Hge : 0 <= 4) by lia.
  assert (Hnd : NoDup [3; 4; 5; 6]).
  { repeat constructor; simpl; intros H;
      repeat (destruct H as [H|H]; [discriminate H|]); exact H. }
  do 6 eexists. split; [exact Hloop|]. split; [exact Hrun|].
  split; [exact Hge|]. split; [exact Hnd|].
  exact (parent_closes_each_descriptor_once script_kernel_ok "true" None
           input 3 8 1 out w 100 3 4 5 6 _ _ _ _ _ _ Hloop Hrun Hge Hnd).
Defined.

(** X11.  One pass of the loop starts with one poll on [stdout_r] and
    the descriptor in [fds[1].fd], then makes at most one write, only
    when that poll reported POLLOUT, and at most one read, only when it
    reported POLLIN.  The loop goes on only when poll succeeded and
    reported nothing but POLLOUT on the stdin pipe and nothing but
    POLLIN on the stdout pipe; and it is left without a message only
    on POLLHUP (with or without POLLIN) on the stdout pipe.  For any
    kernel. *)
Theorem pass_acts_only_on_reported_readiness
        {W : Type} {K : Kernel W}
        (input : mem) (inlen outlen stdout_r : Z)
        (st : pstate) (w : W) (c : ctl) (st' : pstate) (evs : list event)
        (w' : W) :
  pump_pass input inlen outlen stdout_r st w = Some (c, st', evs, w') ->
  exists r rest,
    evs = EvPoll stdout_r (fds1_fd st) r :: rest /\
    (existsb is_write rest = true -> has_flag (revents1 r) POLLOUT = true) /\
    (existsb is_read rest = true -> has_flag (revents0 r) POLLIN = true) /\
    (count is_write rest <= 1)%nat /\ (count is_read rest <= 1)%nat /\
    (c = Continue ->
     0 <= polln r /\
     clear_flag (revents1 r) POLLOUT = 0 /\
     clear_flag (revents0 r) POLLIN = 0) /\
    (c = Break -> existsb is_msg rest = false ->
     0 <= polln r /\
     clear_flag (revents1 r) POLLOUT = 0 /\
     clear_flag (revents0 r) POLLIN = POLLHUP).
Proof.
  intros H. unfold pump_pass, write_leg, read_leg in H.
  open_run H.
  all: eexists; eexists; split; [reflexivity|].
  all: bool_to_Z.
  all: split; [simpl; intros Hx; first [discriminate Hx | assumption]|].
  all: split; [simpl; intros Hx; first [discriminate Hx | assumption]|].
  all: split; [unfold count; simpl; lia|].
  all: split; [unfold count; simpl; lia|].
  all: split; intros Hc; try discriminate Hc; try (intros Hm; try discriminate Hm).
  all: repeat match goal with
         | E : negb _ = false |- _ => apply negb_false_iff in E
         | E : negb _ = true |- _ => apply negb_true_iff in E
         | E : (_ =? _) = true |- _ => apply Z.eqb_eq in E
         end.
  all: repeat split; try lia; try assumption.
  all: repeat match goal with
         | E : ?x = 0 |- context [?x] => rewrite E
         | E : ?x = POLLHUP |- context [?x] => rewrite E
         end; try reflexivity.
Qed.

Lemma pass_acts_only_on_reported_readiness_witness :
  let input := mem_of_list [x61; x62; x63] in
  let out : mem := fun _ => x00 in
  let w := Script.World [] 100 true [PollRet 2 POLLIN POLLOUT] [2]
                        [Some [x61]] None in
  exists st' evs w',
    pump_pass input 3 8 5 (pump_init 4 out) w = Some (Continue, st', evs, w') /\
    exists r rest,
      evs = EvPoll 5 (fds1_fd (pump_init 4 out)) r :: rest /\
      (existsb is_write rest = true -> has_flag (revents1 r) POLLOUT = true) /\
      (existsb is_read rest = true -> has_flag (revents0 r) POLLIN = true) /\
      (count is_write rest <= 1)%nat /\ (count is_read rest <= 1)%nat /\
      (Continue = Continue ->
       0 <= polln r /\
       clear_flag (revents1 r) POLLOUT = 0 /\
       clear_flag (revents0 r) POLLIN = 0) /\
      (Continue = Break -> existsb is_msg rest = false ->
       0 <= polln r /\
       clear_flag (revents1 r) POLLOUT = 0 /\
       clear_flag (revents0 r) POLLIN = POLLHUP).
Proof.
  intros input out w.
  eassert (Hpass : pump_pass input 3 8 5 (pump_init 4 out) w
                   = Some (Continue, _, _, _)) by (vm_compute; reflexivity).
  do 3 eexists. split; [exact Hpass|].
  exact (pass_acts_only_on_reported_readiness input 3 8 5 _ w _ _ _ _ Hpass).
Defined.

(** X12.  Every result is between -255 and [outlen].  A result below -1
    is the negated exit status of the child, as waitpid reported it for
    a normal exit; -1 stands for every other failure, and for an exit
    status of 1 as well.  For any kernel that keeps [KernelOK] and a
    capacity that is a non-negative [int]. *)
Theorem result_is_a_count_or_a_negated_status
        {W : Type} {K : Kernel W} (OK : KernelOK K)
        (cmd : string) (argv : option (list string))
        (input : mem) (inlen outlen : Z) (fuel : nat) (out : mem) (w : W)
        (r : Z) (out' : mem) (log : list event) (w' : W) :
  0 <= outlen <= CInt.INT_MAX ->
  popen2 cmd argv input inlen outlen fuel out w
  = Some (Returned r out', log, w') ->
  -255 <= r <= outlen /\
  (r < -1 ->
   exists pid status,
     In (EvWaitpid pid pid status) log /\
     WIFEXITED status = true /\ r = - WEXITSTATUS status).
Proof.
  intros Ho H.
  destruct (popen2_returned cmd argv input inlen outlen fuel out w r out' log w' H)
    as [(-> & -> & Hlog)
       |(pid & stdin_r & stdin_w & stdout_r & stdout_w & w3 & st & evs & w4
         & p & status & msgs & Hpid & Hpump & -> & -> & Hmsgs & Hval)].
  - split; [lia|]. intros Hlt. lia.
  - assert (H0 : 0 <= readlen (pump_init stdin_w out) <= outlen)
      by (simpl; lia).
    destruct (pump_received input inlen outlen OK _ _ _ _ _ _ _ Ho H0 Hpump)
      as (_ & Hc & Hle).
    simpl in Hc, Hle.
    pose proof (WEXITSTATUS_range status) as Hrange.
    pose proof (neg_exit_status status) as Hneg.
    destruct (p =? pid) eqn:Ep; simpl in Hval;
      [|injection Hval as -> _; split; [lia|intros; lia]].
    apply Z.eqb_eq in Ep. subst p.
    destruct (WIFEXITED status) eqn:Ex;
      [|injection Hval as -> _; split; [lia|intros; lia]].
    destruct (negb (WEXITSTATUS status =? 0)) eqn:E.
    { injection Hval as -> _. split; [lia|]. intros _.
      exists pid, status. split; [|split; [exact Ex|exact Hneg]].
      rewrite !in_app_iff. right. right. right. left. reflexivity. }
    destruct (negb (writelen st =? inlen));
      injection Hval as -> _; (split; [lia|intros; lia]).
Qed.

Lemma result_is_a_count_or_a_negated_status_witness :
  let input : mem := fun _ => x00 in
  let out : mem := fun _ => x00 in
  let w := Script.parent_world [PollRet 1 POLLHUP POLLOUT] [] []
                               (Some (100, 3 * 256)) in
  0 <= 8 <= CInt.INT_MAX /\
  exists out' log w',
    popen2 "sh" None input 0 8 1 out w = Some (Returned (-3) out', log, w') /\
    -255 <= -3 <= 8 /\
    (-3 < -1 ->
     exists pid status,
       In (EvWaitpid pid pid status) log /\
       WIFEXITED status = true /\ -3 = - WEXITSTATUS status).
Proof.
  intros input out w.
  assert (Ho : 0 <= 8 <= CInt.INT_MAX) by (unfold CInt.INT_MAX; lia).
  split; [exact Ho|].
  eassert (Hrun : popen2 "sh" None input 0 8 1 out w
                  = Some (Returned (-3) _, _, _)) by (vm_compute; reflexivity).
  do 3 eexists. split; [exact Hrun|].
  exact (result_is_a_count_or_a_negated_status script_kernel_ok "sh" None
           input 0 8 1 out w (-3) _ _ _ Ho Hrun).
Defined.

(** X13.  When one of the two pipes or the fork fails, nothing more is
    attempted: the failing call is the last system call of [popen2], it
    is followed by its message only, the result is -1 and the output
    buffer is the caller's.  No second pipe is asked for after a first
    one failed, no child is forked after a failed pipe, and nothing is
    closed, polled, read, written or waited for.  For any kernel. *)
Theorem failed_spawn_attempts_nothing_more
        {W : Type} {K : Kernel W}
        (cmd : string) (argv : option (list string))
        (input : mem) (inlen outlen : Z) (fuel : nat) (out : mem) (w : W)
        (r : Z) (out' : mem) (log : list event) (w' : W) :
  popen2 cmd argv input inlen outlen fuel out w
  = Some (Returned r out', log, w') ->
  In (EvPipe None) log \/ (exists pid, pid < 0 /\ In (EvFork pid) log) ->
  r = -1 /\ out' = out /\
  (log = [EvPipe None; EvMsg "Failed to create pipe."] \/
   (exists p1, log = [EvPipe (Some p1); EvPipe None;
                      EvMsg "Failed to create pipe."]) \/
   (exists p1 p2 pid,
       pid < 0 /\
       log = [EvPipe (Some p1); EvPipe (Some p2); EvFork pid;
              EvMsg "Fork error."])).
Proof.
  intros H Hfail.
  destruct (popen2_returned cmd argv input inlen outlen fuel out w r out' log w' H)
    as [Hleft
       |(pid & stdin_r & stdin_w & stdout_r & stdout_w & w3 & st & evs & w4
         & p & status & msgs & Hpid & Hpump & -> & -> & Hmsgs & Hval)];
    [exact Hleft|].
  exfalso.
  pose proof (pump_events _ _ _ _ _ _ _ _ _ _ Hpump) as Hev.
  rewrite Forall_forall in Hev.
  assert (Hall : forall e,
             In e (spawn_log pid stdin_r stdin_w stdout_r stdout_w ++ evs
                     ++ cleanup_log stdout_r st
                     ++ EvWaitpid pid p status :: msgs) ->
             e <> EvPipe None /\ forall q, q < 0 -> e <> EvFork q).
  { intros e He. rewrite !in_app_iff in He.
    destruct He as [He|[He|[He|[<-|He]]]].
    - unfold spawn_log in He. simpl in He.
      repeat (destruct He as [<-|He];
              [split; [discriminate|intros q Hq E; try discriminate E]|]);
        try contradiction.
      injection E as ->. lia.
    - specialize (Hev e He).
      destruct e; simpl in Hev; try contradiction;
        (split; [discriminate|intros q Hq; discriminate]).
    - unfold cleanup_log in He. destruct (0 <=? stdin_fd1 st); simpl in He;
        repeat (destruct He as [<-|He];
                [split; [discriminate|intros q Hq; discriminate]|]);
        contradiction.
    - split; [discriminate|intros q Hq; discriminate].
    - specialize (Hmsgs e He).
      destruct e; simpl in Hmsgs; try discriminate;
        (split; [discriminate|intros q Hq; discriminate]). }
  destruct Hfail as [Hin|(q & Hq & Hin)].
  - apply (proj1 (Hall _ Hin)). reflexivity.
  - apply (proj2 (Hall _ Hin) q Hq). reflexivity.
Qed.

Lemma failed_spawn_attempts_nothing_more_witness :
  let input : mem := fun _ => x00 in
  let out : mem := fun _ => x00 in
  let w := Script.World [Some (3, 4); None] 100 true [] [] [] None in
  exists log w',
    popen2 "cat" None input 0 8 1 out w = Some (Returned (-1) out, log, w') /\
    In (EvPipe None) log /\
    -1 = -1 /\ out = out /\
    (log = [EvPipe None; EvMsg "Failed to create pipe."] \/
     (exists p1, log = [EvPipe (Some p1); EvPipe None;
                        EvMsg "Failed to create pipe."]) \/
     (exists p1 p2 pid,
         pid < 0 /\
         log = [EvPipe (Some p1); EvPipe (Some p2); EvFork pid;
                EvMsg "Fork error."])).
Proof.
  intros input out w.
  eassert (Hrun : popen2 "cat" None input 0 8 1 out w
                  = Some (Returned (-1) out, _, _)) by reflexivity.
  assert (Hin : In (EvPipe None)
                   [EvPipe (Some (3, 4)); EvPipe None;
                    EvMsg "Failed to create pipe."]) by (simpl; auto).
  do 2 eexists. split; [exact Hrun|]. split; [exact Hin|].
  exact (failed_spawn_attempts_nothing_more "cat" None input 0 8 1 out w (-1)
           out _ _ Hrun (or_introl Hin)).
Defined.

(** * Output that does not fit, against the reference model *)

Section Oversized.

Variables (input : mem) (inlen outlen : Z) (pre : list byte).

Hypothesis inlen_nonneg : 0 <= inlen.

Hypothesis outlen_nonneg : 0 <= outlen.

Hypothesis too_long : outlen < Z.of_nat (length pre) + inlen.

Hypothesis total_int : Z.of_nat (length pre) + inlen <= CInt.INT_MAX.






End Oversized.

(** ** The child after the parent has closed its descriptors *)





Section OversizedReap.

Variables (input : mem) (inlen : Z) (pre : list byte).


End OversizedReap.



